(** * FitScore AI backend (server.ts): tagged-text parser and batch handler

    A shallow embedding of [server.ts]: the JavaScript string and regular
    expression primitives the parser relies on, [parseModelOutput],
    [buildPrompt], [runZypherTask], [getRequiredEnv], the [json] helper and
    the request handler passed to [serve]; and of the client in [App.tsx]:
    [addResume], [removeResume], [scoreBadgeClass] and [handleAnalyze];
    followed by the properties proved of them. *)

From Stdlib Require Import List NArith ZArith Bool Lia String Ascii.
From Stdlib Require Import DecimalN DecimalPos.
Import ListNotations.

Set Implicit Arguments.

(** ** JavaScript strings *)

Module JS.

Local Open Scope N_scope.

(** A JavaScript string is a sequence of UTF-16 code units. *)
Definition cu := N.
Definition jsstring := list cu.

(** ASCII literals of the source, as code units. *)
Definition js (s : string) : jsstring :=
  map N_of_ascii (list_ascii_of_string s).

(** ECMAScript WhiteSpace: TAB, VT, FF, SP, NBSP, ZWNBSP and category Zs. *)
Definition isWhiteSpace (c : cu) : bool :=
  (c =? 9) || (c =? 11) || (c =? 12) || (c =? 32) || (c =? 160)
  || (c =? 5760) || ((8192 <=? c) && (c <=? 8202))
  || (c =? 8239) || (c =? 8287) || (c =? 12288) || (c =? 65279).

(** ECMAScript LineTerminator: LF, CR, LS, PS. *)
Definition isLineTerminator (c : cu) : bool :=
  (c =? 10) || (c =? 13) || (c =? 8232) || (c =? 8233).

(** The code units removed by [trim] and matched by [\s]. *)
Definition isStrWhiteSpaceChar (c : cu) : bool :=
  isWhiteSpace c || isLineTerminator c.

Fixpoint dropWhile (p : cu -> bool) (s : jsstring) : jsstring :=
  match s with
  | [] => []
  | c :: s' => if p c then dropWhile p s' else s
  end.

Definition trimStart (s : jsstring) : jsstring :=
  dropWhile isStrWhiteSpaceChar s.

Definition trimEnd (s : jsstring) : jsstring :=
  rev (dropWhile isStrWhiteSpaceChar (rev s)).

(** [String.prototype.trim]. *)
Definition trim (s : jsstring) : jsstring := trimEnd (trimStart s).

(** [String.prototype.slice(start)] with the end omitted: a negative
    [start] counts from the end of the string. *)
Definition slice (s : jsstring) (start : Z) : jsstring :=
  let len := Z.of_nat (List.length s) in
  let from := if (start <? 0)%Z then Z.max (len + start) 0 else Z.min start len in
  skipn (Z.to_nat from) s.

Fixpoint indexOf_from (s : jsstring) (c : cu) (i : Z) : Z :=
  match s with
  | [] => (-1)%Z
  | x :: s' => if x =? c then i else indexOf_from s' c (i + 1)%Z
  end.

(** [String.prototype.indexOf] for a one-unit search string. *)
Definition indexOf (s : jsstring) (c : cu) : Z := indexOf_from s c 0%Z.

(** A string is truthy when it is not empty. *)
Definition truthy (s : jsstring) : bool :=
  match s with [] => false | _ :: _ => true end.

(** *** Numbers

    The values [Number] can return on a run of decimal digits: a
    non-negative integer that a double represents, or [Infinity]; [NaN]
    stands for the result on anything that is not a numeric literal. *)
Inductive number : Type :=
| Num (n : N)
| Infinity
| NaN.

Definition isDigit (c : cu) : bool := (48 <=? c) && (c <=? 57).

(** The mathematical value of a run of decimal digits. *)
Definition MV (ds : jsstring) : N :=
  fold_left (fun acc c => 10 * acc + (c - 48)) ds 0.

(** Rounding of a non-negative integer to the nearest double, ties to
    even: 53 significant bits are kept, and a result of [2^1024] or more
    is [Infinity]. *)
Definition roundToDouble (n : N) : number :=
  if n <? 2 ^ 53 then Num n
  else
    let e := N.log2 n - 52 in
    let q := N.shiftr n e in
    let r := n mod 2 ^ e in
    let half := 2 ^ (e - 1) in
    let q' := if (half <? r) || ((r =? half) && N.odd q) then q + 1 else q in
    let v := q' * 2 ^ e in
    if 2 ^ 1024 <=? v then Infinity else Num v.

(** [StringToNumber] on the strings the parser hands to [Number]: a
    non-empty run of ASCII digits is read in base ten (leading zeros
    allowed) and rounded to a double. Other numeric literals (signs,
    fractions, exponents, hexadecimal) are not modelled and read as
    [NaN]; the group [(\d+)] never captures one. *)
Definition StringToNumber (s : jsstring) : number :=
  match s with
  | [] => Num 0
  | _ :: _ => if forallb isDigit s then roundToDouble (MV s) else NaN
  end.

(** [Number(v)] for [v] a string or [undefined] ([None]). *)
Definition Number (v : option jsstring) : number :=
  match v with
  | None => NaN
  | Some s => StringToNumber s
  end.

(** Decimal rendering of a natural number, most significant digit first. *)
Fixpoint uint_digits (u : Decimal.uint) : jsstring :=
  match u with
  | Decimal.Nil => []
  | Decimal.D0 u' => 48 :: uint_digits u'
  | Decimal.D1 u' => 49 :: uint_digits u'
  | Decimal.D2 u' => 50 :: uint_digits u'
  | Decimal.D3 u' => 51 :: uint_digits u'
  | Decimal.D4 u' => 52 :: uint_digits u'
  | Decimal.D5 u' => 53 :: uint_digits u'
  | Decimal.D6 u' => 54 :: uint_digits u'
  | Decimal.D7 u' => 55 :: uint_digits u'
  | Decimal.D8 u' => 56 :: uint_digits u'
  | Decimal.D9 u' => 57 :: uint_digits u'
  end.

Definition decimal (n : N) : jsstring := uint_digits (N.to_uint n).

End JS.

Import JS.

(** ** Regular expressions

    The fragment of ECMAScript regular expressions that [server.ts] uses:
    a sequence of single characters and of greedy quantifiers over one
    character set, at most one of which is a capturing group, matched by
    backtracking. *)

Module RegExp.

Local Open Scope N_scope.

Inductive CharSet : Type :=
| Lit (c : cu)        (* a pattern character *)
| ClassS              (* \s *)
| ClassD              (* \d *)
| Dot.                (* . *)

(** Canonicalize of a non-unicode pattern under the [i] flag. On ASCII it
    is upper-casing; a code unit of 128 or more is never canonicalized to
    an ASCII one, so against the ASCII pattern characters used here the
    comparison below is exact. *)
Definition Canonicalize (ignoreCase : bool) (c : cu) : cu :=
  if ignoreCase && (97 <=? c) && (c <=? 122) then c - 32 else c.

Definition inSet (ignoreCase : bool) (A : CharSet) (ch : cu) : bool :=
  match A with
  | Lit c => Canonicalize ignoreCase ch =? Canonicalize ignoreCase c
  | ClassS => isStrWhiteSpaceChar ch
  | ClassD => isDigit ch
  | Dot => negb (isLineTerminator ch)
  end.

Inductive Term : Type :=
| Atom (A : CharSet)
| Quant (min : nat) (A : CharSet) (capture : bool).  (* A{min,}, greedy *)

Record RegExp : Type := mkRegExp {
  pattern : list Term;
  ignoreCase : bool
}.

(** Length of the longest prefix of [s] made of members of [A]. *)
Fixpoint run (ic : bool) (A : CharSet) (s : jsstring) : nat :=
  match s with
  | [] => O
  | c :: s' => if inSet ic A c then S (run ic A s') else O
  end.

(** Greedy choice: try [k] repetitions, then [k-1], ... down to [min]. *)
Fixpoint backtrack {R : Type} (k min : nat) (try : nat -> option R) : option R :=
  match try k with
  | Some r => Some r
  | None =>
      match k with
      | O => None
      | S k' => if (k' <? min)%nat then None else backtrack k' min try
      end
  end.

(** A successful match: the text of group 1 when it took part, and the
    number of code units consumed. *)
Definition MatchState : Type := (option jsstring * nat)%type.

Fixpoint matchTerms (ic : bool) (p : list Term) (s : jsstring)
    (cap : option jsstring) : option MatchState :=
  match p with
  | [] => Some (cap, O)
  | Atom A :: p' =>
      match s with
      | [] => None
      | c :: s' =>
          if inSet ic A c then
            match matchTerms ic p' s' cap with
            | Some (g, n) => Some (g, S n)
            | None => None
            end
          else None
      end
  | Quant min A capture :: p' =>
      let m := run ic A s in
      if (m <? min)%nat then None
      else
        backtrack m min (fun k =>
          match matchTerms ic p' (skipn k s)
                  (if capture then Some (firstn k s) else cap) with
          | Some (g, n) => Some (g, (k + n)%nat)
          | None => None
          end)
  end.

Definition matchAt (r : RegExp) (s : jsstring) : option MatchState :=
  matchTerms (ignoreCase r) (pattern r) s None.

(** The result array of a successful [exec]: [index] and element 1. *)
Record MatchResult : Type := mkMatch {
  index : nat;
  group1 : option jsstring
}.

(** RegExpBuiltinExec with [lastIndex = 0] and no [g] or [y] flag: the
    match at the least index, tried from every position up to the end. *)
Fixpoint execFrom (r : RegExp) (s : jsstring) (i : nat) : option MatchResult :=
  match matchAt r s with
  | Some (g, _) => Some (mkMatch i g)
  | None =>
      match s with
      | [] => None
      | _ :: s' => execFrom r s' (S i)
      end
  end.

(** [str.match(r)] for a regular expression without the [g] flag. *)
Definition String_match (s : jsstring) (r : RegExp) : option MatchResult :=
  execFrom r s O.

(** [str.search(r)]: the index of the first match, or [-1]. *)
Definition String_search (s : jsstring) (r : RegExp) : Z :=
  match execFrom r s O with
  | Some m => Z.of_nat (index m)
  | None => (-1)%Z
  end.

Definition lit (s : string) : list Term := map (fun c => Atom (Lit c)) (js s).
Definition star (A : CharSet) : Term := Quant 0 A false.
Definition plusGroup (A : CharSet) : Term := Quant 1 A true.

End RegExp.

Import RegExp.

(** ** The response parser *)

(** [/FIT_SCORE\s*:\s*(\d+)/i] *)
Definition FIT_SCORE_RE : RegExp :=
  mkRegExp (lit "FIT_SCORE" ++ [star ClassS; Atom (Lit 58%N); star ClassS; plusGroup ClassD]) true.

(** [/RISK_SCORE\s*:\s*(\d+)/i] *)
Definition RISK_SCORE_RE : RegExp :=
  mkRegExp (lit "RISK_SCORE" ++ [star ClassS; Atom (Lit 58%N); star ClassS; plusGroup ClassD]) true.

(** [/VERDICT\s*:\s*(.+)/i] *)
Definition VERDICT_RE : RegExp :=
  mkRegExp (lit "VERDICT" ++ [star ClassS; Atom (Lit 58%N); star ClassS; plusGroup Dot]) true.

(** [/REPORT\s*:/i] *)
Definition REPORT_RE : RegExp :=
  mkRegExp (lit "REPORT" ++ [star ClassS; Atom (Lit 58%N)]) true.

Record Parsed : Type := mkParsed {
  fitScore : option number;
  riskScore : option number;
  verdict : jsstring;
  report : jsstring
}.

Definition NO_VERDICT : jsstring := js "No clear verdict parsed".

(** Element 1 of a match result, as a string. The group of
    [/VERDICT\s*:\s*(.+)/i] takes part in every match, so the empty
    default is never used. *)
Definition group1_text (m : MatchResult) : jsstring :=
  match group1 m with Some g => g | None => [] end.

Definition parseModelOutput (raw : jsstring) : Parsed :=
  let fitMatch := String_match raw FIT_SCORE_RE in
  let riskMatch := String_match raw RISK_SCORE_RE in
  let verdictMatch := String_match raw VERDICT_RE in
  let reportIndex := String_search raw REPORT_RE in
  let fitScore :=
    match fitMatch with Some m => Some (Number (group1 m)) | None => None end in
  let riskScore :=
    match riskMatch with Some m => Some (Number (group1 m)) | None => None end in
  let verdict :=
    match verdictMatch with
    | Some m => trim (group1_text m)
    | None => NO_VERDICT
    end in
  let report :=
    if negb (reportIndex =? -1)%Z then
      let after := slice raw reportIndex in
      let firstNewline := indexOf after 10%N in
      if negb (firstNewline =? -1)%Z
      then trim (slice after (firstNewline + 1)%Z)
      else trim after
    else raw in
  mkParsed fitScore riskScore verdict report.

(** ** The prompt *)

Definition PROMPT_PERSONA : jsstring :=
  js "
You are a ruthless startup founder reviewing candidates for a Senior Full-Stack / Agent Infra role at CoreSpeed.

You get:
1) The exact job description (JD).
2) One candidate"
  ++ [8217%N] ++
  js "s resume.

Your job:
- Decide how well this candidate truly fits the JD.
- Detect any bullshit / AI-rewritten / keyword-stuffed patterns.
- Score both Fit and Risk.

IMPORTANT: You MUST respond in the following EXACT plain-text format.
Do NOT add any extra explanation, headings, markdown, or text before FIT_SCORE:.

FIT_SCORE: <integer 0-10>
RISK_SCORE: <integer 0-10>
VERDICT: <short one-sentence founder-style verdict>
REPORT:
<multi-line markdown analysis; sections: Alignment, Gaps, Red Flags, Verdict>

Rules:
- fitScore: higher = better match to JD (skills, stack, scope, ownership).
- riskScore: higher = more risky (inflated buzzwords, weak ownership, shallow infra experience).
- Be brutally honest but grounded in the evidence from the resume vs JD.
- If information is missing, say so instead of hallucinating.

---------------- JD START ----------------
".

Definition PROMPT_BETWEEN : jsstring :=
  js "
---------------- JD END ------------------

------------- RESUME START --------------
".

Definition PROMPT_END : jsstring :=
  js "
------------- RESUME END ----------------
".

(** The template literal of [buildPrompt]: both arguments are spliced in
    verbatim. *)
Definition buildPrompt (jd resumeText : jsstring) : jsstring :=
  PROMPT_PERSONA ++ jd ++ PROMPT_BETWEEN ++ resumeText ++ PROMPT_END.

(** ** The HTTP server *)

Module ResumeInput.
Record t : Type := mk {
  id : jsstring;
  text : jsstring
}.
End ResumeInput.

Module AnalyzeResult.
Record t : Type := mk {
  id : jsstring;
  verdict : jsstring;
  fitScore : option number;
  riskScore : option number;
  report : jsstring
}.
End AnalyzeResult.

(** A thrown value, as the handlers inspect it: an [Error] instance with
    its [message], or any other value with its [String(err)]. *)
Inductive thrown : Type :=
| ErrorInstance (message : jsstring)
| NonError (asString : jsstring).

(** [err instanceof Error ? err.message : String(err)] *)
Definition errorText (err : thrown) : jsstring :=
  match err with
  | ErrorInstance message => message
  | NonError asString => asString
  end.

(** The events of a task's stream that [runZypherTask] tells apart. *)
Inductive TaskEvent : Type :=
| TextDelta (delta : jsstring)      (* type "text-delta" *)
| Text (content : jsstring)         (* type "text" *)
| OtherEvent.

(** What the server does to the outside world, in order. *)
Inductive Effect : Type :=
| ModelCall (prompt model : jsstring)            (* agent.runTask *)
| ConsoleLog (msg : jsstring)
| ConsoleError (msg : jsstring) (err : thrown).

Inductive Outcome (A : Type) : Type :=
| Return (a : A)
| Throw (err : thrown).
Arguments Throw {A} err.

Fixpoint jsstring_eqb (s t : jsstring) : bool :=
  match s, t with
  | [], [] => true
  | c :: s', d :: t' => (c =? d)%N && jsstring_eqb s' t'
  | _, _ => false
  end.

(** *** Responses *)

Inductive data : Type :=
| ErrorData (error : jsstring)                       (* { error } *)
| ResultsData (results : list AnalyzeResult.t).      (* { results } *)

Inductive BodyInit : Type :=
| NullBody
| PlainText (s : jsstring)
| JSON_stringify (d : data).

Definition HeadersInit : Type := list (jsstring * jsstring).

Record Response : Type := mkResponse {
  body : BodyInit;
  status : N;
  headers : HeadersInit
}.

Definition asciiLower (c : cu) : cu :=
  if (65 <=? c)%N && (c <=? 90)%N then (c + 32)%N else c.

(** Header names compare without regard to ASCII case. *)
Definition headerName_eqb (a b : jsstring) : bool :=
  jsstring_eqb (map asciiLower a) (map asciiLower b).

(** [headers.get(name)] on a header list without repeated names. *)
Fixpoint Headers_get (hs : HeadersInit) (name : jsstring) : option jsstring :=
  match hs with
  | [] => None
  | (k, v) :: hs' => if headerName_eqb k name then Some v else Headers_get hs' name
  end.

(** [new Response(body, { status, headers })]: a string body without a
    [Content-Type] of its own is given the text/plain one. *)
Definition new_Response (b : BodyInit) (st : N) (hs : HeadersInit) : Response :=
  let hs' :=
    match b, Headers_get hs (js "Content-Type") with
    | NullBody, _ => hs
    | _, Some _ => hs
    | _, None => hs ++ [(js "content-type", js "text/plain;charset=UTF-8")]
    end in
  mkResponse b st hs'.

Definition json (d : data) (st : N) : Response :=
  new_Response (JSON_stringify d) st
    [(js "Content-Type", js "application/json");
     (js "Access-Control-Allow-Origin", js "*")].

(** *** Requests

    [req.json()] either rejects or yields a value that the handler takes,
    unchecked, to have the declared shape
    [{ jd?: string; resumes?: ResumeInput[] }]. *)
Record RequestBody : Type := mkBody {
  jd : option jsstring;
  resumes : option (list ResumeInput.t)
}.

Record Request : Type := mkRequest {
  method : jsstring;
  pathname : jsstring;          (* new URL(req.url).pathname *)
  req_json : Outcome RequestBody
}.

Definition MODEL_NAME : jsstring := js "claude-3-haiku-20240307".

Definition FALLBACK_VERDICT : jsstring :=
  js "Analysis failed " ++ [8212%N] ++ js " fallback verdict. Check backend logs.".

Definition MISSING_JD : jsstring := js "Missing 'jd' in request body".
Definition NO_RESUMES : jsstring := js "Provide at least one resume".
Definition INTERNAL_ERROR : jsstring :=
  js "Internal server error while analyzing resumes. Check backend logs.".

Section Server.

(** The agent built at startup is the only link to the model: its state
    is [Agent], and [runTask prompt model] yields the events of the task's
    stream up to its completion or up to the error that ends it. *)
Variable Agent : Type.
Variable runTask :
  jsstring -> jsstring -> Agent -> (list TaskEvent * option thrown) * Agent.

Record World : Type := mkWorld {
  agent : Agent;
  trace : list Effect
}.

(** Computations that act on the world and may throw. *)
Definition IO (A : Type) : Type := World -> Outcome A * World.

Definition ret {A : Type} (a : A) : IO A := fun w => (Return a, w).

Definition bind {A B : Type} (c : IO A) (k : A -> IO B) : IO B :=
  fun w =>
    match c w with
    | (Return a, w') => k a w'
    | (Throw err, w') => (Throw err, w')
    end.

Definition tryCatch {A : Type} (c : IO A) (handler : thrown -> IO A) : IO A :=
  fun w =>
    match c w with
    | (Return a, w') => (Return a, w')
    | (Throw err, w') => handler err w'
    end.

Definition emit (e : Effect) : IO unit :=
  fun w => (Return tt, mkWorld (agent w) (trace w ++ [e])).

Definition await {A : Type} (o : Outcome A) : IO A := fun w => (o, w).

Local Notation "x <- c ;; k" := (bind c (fun x => k))
  (at level 61, c at next level, right associativity).
Local Notation "c ;;; k" := (bind c (fun _ => k))
  (at level 61, right associativity).

(** One step of the [for await] loop of [runZypherTask]. *)
Definition accumulate (finalText : jsstring) (event : TaskEvent) : jsstring :=
  match event with
  | TextDelta delta => if truthy delta then finalText ++ delta else finalText
  | Text content => if truthy content then finalText ++ content else finalText
  | OtherEvent => finalText
  end.

Definition runZypherTask (prompt : jsstring) : IO jsstring :=
  fun w =>
    let '((events, failure), a') := runTask prompt MODEL_NAME (agent w) in
    let w' := mkWorld a' (trace w ++ [ModelCall prompt MODEL_NAME]) in
    match failure with
    | Some err => (Throw err, w')
    | None => (Return (trim (fold_left accumulate events [])), w')
    end.

(** The locals [fitScore], [riskScore], [verdict], [report] of one turn of
    the loop. *)
Definition Locals : Type :=
  (option number * option number * jsstring * jsstring)%type.

Definition rawOutputMessage (id raw : jsstring) : jsstring :=
  [55357; 56516]%N ++ js " Raw model output for " ++ id ++ [58; 10]%N
  ++ raw ++ [10]%N ++ js "---".

Definition analyzeErrorMessage (id : jsstring) : jsstring :=
  [10060]%N ++ js " Error analyzing resume " ++ [34]%N ++ id ++ [34; 58]%N.

Definition handlerErrorMessage : jsstring :=
  [10060]%N ++ js " /analyze handler error:".

(** The [try]/[catch] of the loop body. Nothing throws once the first
    local is assigned, so the [catch] clause sees the initial [null]
    scores. *)
Definition analyzeOne (jd : jsstring) (r : ResumeInput.t) : IO Locals :=
  let prompt := buildPrompt jd (ResumeInput.text r) in
  tryCatch
    (raw <- runZypherTask prompt ;;
     emit (ConsoleLog (rawOutputMessage (ResumeInput.id r) raw)) ;;;
     let parsed := parseModelOutput raw in
     ret (fitScore parsed, riskScore parsed, verdict parsed, report parsed))
    (fun err =>
       emit (ConsoleError (analyzeErrorMessage (ResumeInput.id r)) err) ;;;
       ret (None, None, FALLBACK_VERDICT, js "Raw error: " ++ errorText err)).

(** [for (const r of resumes) { ... results.push(...) }] *)
Fixpoint analyzeLoop (jd : jsstring) (resumes : list ResumeInput.t)
    (results : list AnalyzeResult.t) : IO (list AnalyzeResult.t) :=
  match resumes with
  | [] => ret results
  | r :: rest =>
      if negb (truthy (ResumeInput.text r))
         || negb (truthy (trim (ResumeInput.text r)))
      then analyzeLoop jd rest results
      else
        l <- analyzeOne jd r ;;
        let '(fitScore, riskScore, verdict, report) := l in
        analyzeLoop jd rest
          (results ++
           [AnalyzeResult.mk (ResumeInput.id r) verdict fitScore riskScore report])
  end.

Definition analyze (req : Request) : IO Response :=
  tryCatch
    (body <- await (req_json req) ;;
     let jd := match jd body with Some s => trim s | None => [] end in
     let resumes := match resumes body with Some l => l | None => [] end in
     if negb (truthy jd) then ret (json (ErrorData MISSING_JD) 400)
     else if (List.length resumes =? 0)%nat
     then ret (json (ErrorData NO_RESUMES) 400)
     else
       results <- analyzeLoop jd resumes [] ;;
       ret (json (ResultsData results) 200))
    (fun err =>
       emit (ConsoleError handlerErrorMessage err) ;;;
       ret (json (ErrorData INTERNAL_ERROR) 500)).

(** The handler passed to [serve]. *)
Definition handler (req : Request) : IO Response :=
  if jsstring_eqb (method req) (js "OPTIONS") then
    ret (new_Response NullBody 204
           [(js "Access-Control-Allow-Origin", js "*");
            (js "Access-Control-Allow-Methods", js "POST, OPTIONS");
            (js "Access-Control-Allow-Headers", js "Content-Type")])
  else if jsstring_eqb (pathname req) (js "/analyze")
          && jsstring_eqb (method req) (js "POST")
  then analyze req
  else
    ret (new_Response (PlainText (js "Not found")) 404
           [(js "Access-Control-Allow-Origin", js "*")]).

End Server.

(** The prompts sent to the model, in order. *)
Definition modelCalls (tr : list Effect) : list jsstring :=
  flat_map (fun e => match e with ModelCall p _ => [p] | _ => [] end) tr.

(** A resume the loop does not skip. *)
Definition nonBlank (r : ResumeInput.t) : bool :=
  truthy (trim (ResumeInput.text r)).

(** *** A scripted agent, for running the handler on examples

    Its state is the list of the streams still to be served, one for each
    call; an exhausted script serves empty streams. *)
Definition Script : Type := list (list TaskEvent * option thrown).

Definition scripted (prompt model : jsstring) (a : Script)
  : (list TaskEvent * option thrown) * Script :=
  match a with
  | [] => (([], None), [])
  | reply :: a' => (reply, a')
  end.

(** ** Notions the properties are stated with *)

Definition LF : jsstring := [10%N].

(** The reply the prompt asks for:
    [FIT_SCORE: f\nRISK_SCORE: r\nVERDICT: v\nREPORT:\nbody]. *)
Definition template (f r : N) (v body : jsstring) : jsstring :=
  js "FIT_SCORE: " ++ decimal f ++ LF ++
  js "RISK_SCORE: " ++ decimal r ++ LF ++
  js "VERDICT: " ++ v ++ LF ++
  js "REPORT:" ++ LF ++ body.

(** A text without line terminators. *)
Definition singleLine (v : jsstring) : bool :=
  forallb (fun c => negb (isLineTerminator c)) v.

(** A tag as the parser recognizes it: the name, optional white space, a
    colon; letters in either case. *)
Definition tagRE (name : string) : RegExp :=
  mkRegExp (lit name ++ [star ClassS; Atom (Lit 58%N)]) true.

(** A tag written without white space before its colon. *)
Definition literalTagRE (name : string) : RegExp :=
  mkRegExp (lit name ++ [Atom (Lit 58%N)]) true.

Definition TAG_NAMES : list string :=
  ["FIT_SCORE"; "RISK_SCORE"; "VERDICT"; "REPORT"]%string.

Definition occurs (r : RegExp) (s : jsstring) : bool :=
  negb (String_search s r =? -1)%Z.

(** No match of [r] in [s] begins at an index below [n]. *)
Definition noMatchBefore (r : RegExp) (s : jsstring) (n : nat) : bool :=
  forallb (fun k => match matchAt r (skipn k s) with None => true | Some _ => false end)
          (seq 0 n).

Definition startsWithDigit (s : jsstring) : bool :=
  match s with
  | [] => false
  | c :: _ => isDigit c
  end.


(** The job description and the resume list as the handler reads them. *)
Definition jdOf (b : RequestBody) : jsstring :=
  match jd b with Some s => trim s | None => [] end.

Definition resumesOf (b : RequestBody) : list ResumeInput.t :=
  match resumes b with Some l => l | None => [] end.

(** A [POST /analyze] request whose body parses to [b]. *)
Definition isAnalyze (req : Request) (b : RequestBody) : Prop :=
  method req = js "POST" /\ pathname req = js "/analyze" /\ req_json req = Return b.

(** The request passes both validation checks. *)
Definition validated (b : RequestBody) : Prop :=
  jdOf b <> [] /\ resumesOf b <> [].

(** A match found after [k] code units. *)
Definition shift (k : nat) (r : option MatchState) : option MatchState :=
  match r with
  | Some (g, n) => Some (g, k + n)
  | None => None
  end.

(** [tag] spells the pattern characters [L], up to the [i] flag. *)
Fixpoint litMatches (ic : bool) (L tag : jsstring) : bool :=
  match L, tag with
  | [], [] => true
  | c :: L', x :: tag' => inSet ic (Lit c) x && litMatches ic L' tag'
  | _, _ => false
  end.

(** The part [\s*:\s*(\d+)] of the score patterns. *)
Definition scoreTail : list Term :=
  [star ClassS; Atom (Lit 58%N); star ClassS; plusGroup ClassD].

(** No match of [r] in [a ++ s] begins inside [a]. *)
Definition NoMatchIn (r : RegExp) (a s : jsstring) : Prop :=
  forall k, k < List.length a -> matchAt r (skipn k (a ++ s)) = None.

(** The parts of the template that come before each tag. *)
Definition beforeRisk (f : N) : jsstring :=
  js "FIT_SCORE: " ++ decimal f ++ LF.

Definition beforeVerdict (f r : N) : jsstring :=
  beforeRisk f ++ js "RISK_SCORE: " ++ decimal r ++ LF.

Definition beforeReport (f r : N) (v : jsstring) : jsstring :=
  beforeVerdict f r ++ js "VERDICT: " ++ v ++ LF.

(** The world after the loop has logged the failure of resume [r]. *)
Definition logFailure {Agent : Type} (r : ResumeInput.t) (err : thrown)
    (w : World Agent) : World Agent :=
  mkWorld (agent w)
    (trace w ++ [ConsoleError (analyzeErrorMessage (ResumeInput.id r)) err]).

(** ** Examples the claims are run on *)

Definition candidateA : ResumeInput.t :=
  ResumeInput.mk (js "A") (js "5 years Go, built a job scheduler").
Definition candidateB : ResumeInput.t :=
  ResumeInput.mk (js "B") (js "2 years Rust").
Definition candidateC : ResumeInput.t :=
  ResumeInput.mk (js "C") (js "10 years Java").
Definition blankCandidate : ResumeInput.t :=
  ResumeInput.mk (js "blank") (js "   ").

Definition post (b : RequestBody) : Request :=
  mkRequest (js "POST") (js "/analyze") (Return b).

Definition goodReply : list TaskEvent * option thrown :=
  ([TextDelta (js "FIT_SCORE: 9" ++ LF ++ js "RISK_SCORE: 2" ++ LF);
    TextDelta (js "VERDICT: Strong match." ++ LF ++ js "REPORT:" ++ LF
               ++ js "Alignment: ..." ++ LF)], None).

Definition failedReply : list TaskEvent * option thrown :=
  ([TextDelta (js "FIT_SCORE: 3")], Some (ErrorInstance (js "task timed out"))).

Definition backendJD : jsstring := js "Backend engineer, Go, 3+ yrs".

(** ** The rest of [server.ts] *)

(** [Deno.env.get]: the value of a variable, if it is set. *)
Definition Env : Type := jsstring -> option jsstring.

(** An unset variable and one set to the empty string are both falsy. *)
Definition getRequiredEnv (env : Env) (name : jsstring) : Outcome jsstring :=
  match env name with
  | Some v =>
      if negb (truthy v)
      then Throw (ErrorInstance
                    (js "Environment variable " ++ name ++ js " is not set"))
      else Return v
  | None =>
      Throw (ErrorInstance (js "Environment variable " ++ name ++ js " is not set"))
  end.

(** The text an event of the stream carries, if any. *)
Definition eventText (e : TaskEvent) : jsstring :=
  match e with
  | TextDelta delta => delta
  | Text content => content
  | OtherEvent => []
  end.

(** A tag name alone, in either letter case. *)
Definition nameRE (name : string) : RegExp := mkRegExp (lit name) true.

(** None of the four tag names is written in [s]. *)
Definition noTagNames (s : jsstring) : bool :=
  forallb (fun name => negb (occurs (nameRE name) s)) TAG_NAMES.

(** [s] begins with the letter F, as the reply format does. *)
Definition startsWithF (s : jsstring) : bool :=
  match s with
  | [] => false
  | c :: _ => (c =? 70)%N || (c =? 102)%N
  end.

Definition noLineFeed (s : jsstring) : bool :=
  forallb (fun c => negb (c =? 10)%N) s.

(** The entry pushed for a resume whose reply was [raw]. *)
Definition parsedEntry (r : ResumeInput.t) (raw : jsstring) : AnalyzeResult.t :=
  AnalyzeResult.mk (ResumeInput.id r)
    (verdict (parseModelOutput raw))
    (fitScore (parseModelOutput raw))
    (riskScore (parseModelOutput raw))
    (report (parseModelOutput raw)).

(** The world after the loop has logged the reply for resume [r]. *)
Definition logReply {Agent : Type} (r : ResumeInput.t) (raw : jsstring)
    (w : World Agent) : World Agent :=
  mkWorld (agent w)
    (trace w ++ [ConsoleLog (rawOutputMessage (ResumeInput.id r) raw)]).

Definition isOPTIONS (req : Request) : bool :=
  jsstring_eqb (method req) (js "OPTIONS").

Definition isPOSTAnalyze (req : Request) : bool :=
  jsstring_eqb (pathname req) (js "/analyze") && jsstring_eqb (method req) (js "POST").

(** The status the handler answers with, read off the request alone. *)
Definition expectedStatus (req : Request) : N :=
  if isOPTIONS req then 204%N
  else if isPOSTAnalyze req then
    match req_json req with
    | Throw _ => 500%N
    | Return b =>
        match jdOf b, resumesOf b with
        | [], _ => 400%N
        | _, [] => 400%N
        | _, _ => 200%N
        end
    end
  else 404%N.

Definition isConsole (e : Effect) : bool :=
  match e with
  | ModelCall _ _ => false
  | ConsoleLog _ | ConsoleError _ _ => true
  end.

(** ** The client (App.tsx) *)

Module App.

(** The values kept with [useState]. *)
Record State : Type := mkState {
  jd : jsstring;
  resumes : list ResumeInput.t;
  results : list AnalyzeResult.t;
  loading : bool;
  error : option jsstring;
  expandedId : option jsstring
}.

Definition initialState : State :=
  mkState [] [ResumeInput.mk (js "Candidate 1") []] [] false None None.

(** [`Candidate ${prev.length + 1}`]: a length prints in decimal. *)
Definition candidateLabel (prev : list ResumeInput.t) : jsstring :=
  js "Candidate " ++ decimal (N.of_nat (List.length prev + 1)).

(** The updater passed to [setResumes] by [addResume]. *)
Definition addResume (prev : list ResumeInput.t) : list ResumeInput.t :=
  prev ++ [ResumeInput.mk (candidateLabel prev) []].

Fixpoint filterIndex_from (A : Type) (keep : nat -> bool) (l : list A) (i : nat)
  : list A :=
  match l with
  | [] => []
  | x :: l' =>
      if keep i then x :: filterIndex_from keep l' (S i)
      else filterIndex_from keep l' (S i)
  end.

(** The updater passed to [setResumes] by [removeResume]:
    [prev.filter((_, i) => i !== index)]. An index that is no position of
    the array (negative, too large, or not an integer) removes nothing;
    integers stand for all of them here. *)
Definition removeResume (index : Z) (prev : list ResumeInput.t) : list ResumeInput.t :=
  filterIndex_from (fun i => negb (Z.of_nat i =? index)%Z) prev 0.

Inductive BadgeType : Type := fit | risk.

(** [score >= k] and [score <= k] on the numbers a score can be. *)
Definition geq (score : number) (k : N) : bool :=
  match score with
  | Num n => (k <=? n)%N
  | Infinity => true
  | NaN => false
  end.

Definition leq (score : number) (k : N) : bool :=
  match score with
  | Num n => (n <=? k)%N
  | Infinity => false
  | NaN => false
  end.

Definition SLATE : jsstring := js "bg-slate-700 text-slate-200".
Definition EMERALD : jsstring := js "bg-emerald-600/90 text-emerald-50".
Definition AMBER : jsstring := js "bg-amber-500/90 text-amber-50".
Definition RED : jsstring := js "bg-red-500/90 text-red-50".

Definition scoreBadgeClass (score : option number) (type : BadgeType) : jsstring :=
  match score with
  | None => SLATE
  | Some score =>
      match type with
      | fit =>
          if geq score 8 then EMERALD
          else if geq score 5 then AMBER
          else RED
      | risk =>
          if leq score 3 then EMERALD
          else if leq score 6 then AMBER
          else RED
      end
  end.

(** Rank of a badge class: the greener, the higher. *)
Definition badgeRank (c : jsstring) : nat :=
  if jsstring_eqb c EMERALD then 2
  else if jsstring_eqb c AMBER then 1
  else 0.

(** [r.verdict || "No verdict parsed"], the text of the verdict cell. *)
Definition verdictCell (r : AnalyzeResult.t) : jsstring :=
  if truthy (AnalyzeResult.verdict r) then AnalyzeResult.verdict r
  else js "No verdict parsed".

(** The argument of [fetch]; the body is the value given to
    [JSON.stringify]. *)
Record FetchInit : Type := mkFetchInit {
  url : jsstring;
  fetchMethod : jsstring;
  fetchHeaders : HeadersInit;
  fetchBody : RequestBody
}.

(** A value that reaches the [catch] clause of [handleAnalyze], as far as
    the clause tells values apart: [null] or [undefined], on which reading
    [.message] throws a TypeError; or any other value, with its [message]
    when that is a string (an [Error] always has one). A [message] that
    is neither a string nor falsy is outside the declared type of the
    [error] state. *)
Inductive Caught : Type :=
| Nullish
| Value (message : option jsstring).

(** What a run leaves outside the state: a value given to
    [console.error], or the TypeError that escapes the [catch] clause and
    rejects the promise of the run. *)
Inductive Event : Type :=
| Logged (err : Caught)
| Unhandled.

(** The [error] field of a parsed body, as [data.error || ...] and
    [new Error(...)] tell values apart: a falsy value that is not a string
    (no such field, [null], [false], [0]); a string; or a truthy value
    that is not a string, with its [String(...)]. *)
Inductive Field : Type :=
| Absent
| Str (s : jsstring)
| Other (text : jsstring).

(** What [res.json().catch(() => ({}))] gives on a response that is not
    [ok]: [{}] when the body does not parse; [null], on which reading
    [.error] throws a TypeError with the engine's message; or any other
    value, with its [error] field. *)
Inductive ErrorBody : Type :=
| Unparsed
| NullBody (message : jsstring)
| Fields (error : Field).

(** What [handleAnalyze] can learn from [fetch]: it rejects; or it
    resolves with a response that is not [ok], with its status and its
    body; or with one that is [ok], whose [res.json()] gives the
    [results] or rejects. *)
Inductive FetchOutcome : Type :=
| Rejected (err : Caught)
| NotOk (status : N) (data : ErrorBody)
| Ok (results : list AnalyzeResult.t)
| OkUnreadable (err : Caught).

Definition ANALYZE_URL : jsstring := js "http://localhost:8000/analyze".
Definition PASTE_JD : jsstring := js "Paste the job description first.".
Definition PROVIDE_RESUME : jsstring := js "Provide at least one resume.".
Definition SOMETHING_WRONG : jsstring := js "Something went wrong.".

(** [err.message || "Something went wrong."]: the text to show, or
    [None] when reading [.message] throws. *)
Definition messageOf (err : Caught) : option jsstring :=
  match err with
  | Nullish => None
  | Value (Some message) => Some (if truthy message then message else SOMETHING_WRONG)
  | Value None => Some SOMETHING_WRONG
  end.

(** [`Request failed with ${res.status}`] *)
Definition requestFailed (status : N) : jsstring :=
  js "Request failed with " ++ decimal status.

(** What lines 73 and 74 throw on a response that is not [ok]:
    [new Error(data.error || `Request failed with ${res.status}`)], or
    the TypeError of reading [.error] on [null]. *)
Definition failure (status : N) (data : ErrorBody) : Caught :=
  match data with
  | Unparsed => Value (Some (requestFailed status))
  | NullBody message => Value (Some message)
  | Fields Absent => Value (Some (requestFailed status))
  | Fields (Str e) => Value (Some (if truthy e then e else requestFailed status))
  | Fields (Other text) => Value (Some text)
  end.

Section HandleAnalyze.

(** The network: its state, and what one [fetch] answers. *)
Variable Net : Type.
Variable fetch : FetchInit -> Net -> FetchOutcome * Net.

(** The [catch] and [finally] clauses, entered with [err] from the state
    [s1]: the value is logged; then either the message is set, or reading
    it throws and no message is set; [finally] turns the spinner off
    either way. *)
Definition catchClause (s1 : State) (err : Caught) : State * list Event :=
  match messageOf err with
  | Some text =>
      (mkState (jd s1) (resumes s1) (results s1) false (Some text) (expandedId s1),
       [Logged err])
  | None =>
      (mkState (jd s1) (resumes s1) (results s1) false (error s1) (expandedId s1),
       [Logged err; Unhandled])
  end.

(** One run of [handleAnalyze] from the state [s] of the render it was
    created in: the state once every update is applied, what the run
    leaves outside the state, and the network afterwards. *)
Definition handleAnalyze (s : State) (n : Net) : State * list Event * Net :=
  (* setError(null); setResults([]); setExpandedId(null) *)
  let s0 := mkState (jd s) (resumes s) [] (loading s) None None in
  if negb (truthy (trim (jd s))) then
    (mkState (jd s0) (resumes s0) (results s0) (loading s0) (Some PASTE_JD)
       (expandedId s0), [], n)
  else
    let nonEmptyResumes :=
      filter (fun r => (0 <? List.length (trim (ResumeInput.text r)))%nat) (resumes s) in
    if (List.length nonEmptyResumes =? 0)%nat then
      (mkState (jd s0) (resumes s0) (results s0) (loading s0) (Some PROVIDE_RESUME)
         (expandedId s0), [], n)
    else
      (* setLoading(true) *)
      let s1 := mkState (jd s0) (resumes s0) (results s0) true (error s0)
                  (expandedId s0) in
      let '(out, n') :=
        fetch (mkFetchInit ANALYZE_URL (js "POST")
                 [(js "Content-Type", js "application/json")]
                 (mkBody (Some (jd s)) (Some nonEmptyResumes))) n in
      match out with
      | Ok rs =>
          (* setResults(data.results); finally setLoading(false) *)
          (mkState (jd s1) (resumes s1) rs false (error s1) (expandedId s1), [], n')
      | OkUnreadable err => (catchClause s1 err, n')
      | NotOk st data => (catchClause s1 (failure st data), n')
      | Rejected err => (catchClause s1 err, n')
      end.

End HandleAnalyze.

(** A network that answers every request the same way and keeps the
    requests it was sent. *)
Definition recording (out : FetchOutcome) (init : FetchInit) (sent : list FetchInit)
  : FetchOutcome * list FetchInit :=
  (out, sent ++ [init]).

End App.

(** * Properties *)

Unset Implicit Arguments.

(** ** Strings and numbers *)

Section StringFacts.

Local Open Scope N_scope.

Lemma MV_acc (u d : Decimal.uint) :
  fold_left (fun acc c => 10 * acc + (c - 48)) (uint_digits u) (Unsigned.of_lu d)
  = Unsigned.of_lu (Decimal.revapp u d).
Proof.
  revert d; induction u; intro d; cbn [uint_digits fold_left Decimal.revapp]; trivial;
    rewrite <- IHu; f_equal; cbn [Unsigned.of_lu]; lia.
Qed.

Lemma MV_decimal (n : N) : MV (decimal n) = n.
Proof.
  unfold MV, decimal.
  change 0 with (Unsigned.of_lu Decimal.Nil).
  rewrite MV_acc.
  change (Decimal.revapp (N.to_uint n) Decimal.Nil) with (Decimal.rev (N.to_uint n)).
  rewrite <- DecimalPos.Unsigned.of_uint_alt.
  apply DecimalN.Unsigned.of_to.
Qed.

Lemma uint_digits_all u : forallb isDigit (uint_digits u) = true.
Proof. induction u; simpl; auto. Qed.

Lemma decimal_digits n : forallb isDigit (decimal n) = true.
Proof. apply uint_digits_all. Qed.

Lemma decimal_nonempty n : decimal n <> [].
Proof.
  unfold decimal. destruct n as [|p]; [discriminate|].
  simpl. pose proof (DecimalPos.Unsigned.to_uint_nonnil p) as H.
  destruct (Pos.to_uint p); try discriminate. now elim H.
Qed.

Lemma roundToDouble_exact n : n <= 2 ^ 53 -> roundToDouble n = Num n.
Proof.
  intro H. unfold roundToDouble.
  destruct (n <? 2 ^ 53) eqn:E; [reflexivity|].
  apply N.ltb_ge in E. assert (n = 2 ^ 53) as -> by lia.
  vm_compute. reflexivity.
Qed.

Lemma Number_decimal n : n <= 2 ^ 53 -> Number (Some (decimal n)) = Num n.
Proof.
  intro H. unfold Number, StringToNumber.
  pose proof (decimal_nonempty n) as Hne.
  destruct (decimal n) eqn:E; [now elim Hne|].
  rewrite <- E, decimal_digits, MV_decimal. now apply roundToDouble_exact.
Qed.

End StringFacts.

(** ** The matcher *)

Section MatcherFacts.

Variable ic : bool.

Lemma skipn_app_length (A : Type) (a t : list A) :
  skipn (List.length a) (a ++ t) = t.
Proof. induction a; simpl; auto. Qed.

Lemma firstn_app_length (A : Type) (a t : list A) :
  firstn (List.length a) (a ++ t) = a.
Proof. induction a; simpl; congruence. Qed.

Lemma backtrack_top (R : Type) k min (try : nat -> option R) r :
  try k = Some r -> backtrack k min try = Some r.
Proof. intro H. destruct k; simpl; now rewrite H. Qed.

Lemma backtrack_none (R : Type) k min (try : nat -> option R) :
  (forall j, j <= k -> try j = None) -> backtrack k min try = None.
Proof.
  induction k as [|k IH]; intro H; simpl.
  - now rewrite (H 0) by lia.
  - rewrite (H (S k)) by lia.
    destruct (k <? min)%nat; [reflexivity|]. apply IH. intros; apply H; lia.
Qed.

(** When no shorter repetition can succeed, only the longest is tried. *)
Lemma backtrack_commit (R : Type) k min (try : nat -> option R) :
  (forall j, j < k -> try j = None) -> backtrack k min try = try k.
Proof.
  intro H. destruct (try k) as [r|] eqn:E.
  - now apply backtrack_top.
  - apply backtrack_none. intros j Hj.
    destruct (Nat.eq_dec j k) as [->|Hne]; [assumption|apply H; lia].
Qed.

Lemma backtrack_none_mono (R R' : Type) k min
    (f : nat -> option R) (g : nat -> option R') :
  (forall j, f j = None -> g j = None) ->
  backtrack k min f = None -> backtrack k min g = None.
Proof.
  intro H. induction k as [|k IH]; simpl.
  - destruct (f 0) eqn:E; [discriminate|]. now rewrite (H 0 E).
  - destruct (f (S k)) eqn:E; [discriminate|]. rewrite (H _ E).
    destruct (k <? min)%nat; auto.
Qed.

Lemma run_below A s k :
  k < run ic A s ->
  exists c s', skipn k s = c :: s' /\ inSet ic A c = true.
Proof.
  revert k; induction s as [|c s IH]; intros k Hk; simpl in Hk; [lia|].
  destruct (inSet ic A c) eqn:E; [|lia].
  destruct k as [|k]; simpl.
  - eauto.
  - apply IH. lia.
Qed.

Lemma run_app A a t :
  forallb (inSet ic A) a = true ->
  match t with [] => True | c :: _ => inSet ic A c = false end ->
  run ic A (a ++ t) = List.length a.
Proof.
  intros Ha Ht. induction a as [|c a IH]; simpl in *.
  - destruct t as [|c t]; simpl; [reflexivity|now rewrite Ht].
  - apply andb_true_iff in Ha as [Hc Ha]. rewrite Hc. f_equal. auto.
Qed.

Lemma matchTerms_atom A p c s cap :
  matchTerms ic (Atom A :: p) (c :: s) cap =
  if inSet ic A c then shift 1 (matchTerms ic p s cap) else None.
Proof. simpl. destruct (inSet ic A c); [|reflexivity]. now destruct (matchTerms ic p s cap) as [[g n]|]. Qed.

Lemma matchTerms_quant min A capture p s cap :
  matchTerms ic (Quant min A capture :: p) s cap =
  if (run ic A s <? min)%nat then None
  else backtrack (run ic A s) min (fun k =>
         shift k (matchTerms ic p (skipn k s)
                    (if capture then Some (firstn k s) else cap))).
Proof. reflexivity. Qed.

(** A starred set commits to its longest run when what follows cannot
    begin with a member of the set. *)
Lemma star_commit A q s cap :
  (forall c s' cap', inSet ic A c = true -> matchTerms ic q (c :: s') cap' = None) ->
  matchTerms ic (star A :: q) s cap =
  shift (run ic A s) (matchTerms ic q (skipn (run ic A s) s) cap).
Proof.
  intro Hq. unfold star. rewrite matchTerms_quant.
  change (run ic A s <? 0)%nat with false. cbv iota.
  rewrite backtrack_commit; [reflexivity|].
  intros j Hj. destruct (run_below _ _ _ Hj) as (c & s' & -> & Hc).
  now rewrite Hq.
Qed.

(** A final group [(A+)] captures the longest run, if there is one. *)
Lemma plusGroup_last A s cap :
  matchTerms ic [plusGroup A] s cap =
  if (run ic A s <? 1)%nat then None
  else Some (Some (firstn (run ic A s) s), run ic A s + 0).
Proof.
  unfold plusGroup. rewrite matchTerms_quant.
  destruct (run ic A s <? 1)%nat; [reflexivity|].
  now apply backtrack_top.
Qed.

Lemma lit_match L tag p s cap :
  litMatches ic L tag = true ->
  matchTerms ic (map (fun c => Atom (Lit c)) L ++ p) (tag ++ s) cap =
  shift (List.length tag) (matchTerms ic p s cap).
Proof.
  revert tag; induction L as [|c L IH]; intros [|x tag] H;
    cbn [litMatches] in H; try discriminate.
  - simpl. now destruct (matchTerms ic p s cap) as [[g n]|].
  - apply andb_true_iff in H as [Hx H].
    change (matchTerms ic (Atom (Lit c) :: (map (fun c => Atom (Lit c)) L ++ p))
              (x :: (tag ++ s)) cap = shift (S (List.length tag)) (matchTerms ic p s cap)).
    rewrite matchTerms_atom, Hx, IH by assumption.
    now destruct (matchTerms ic p s cap) as [[g n]|].
Qed.

(** If a pattern fails, so does every pattern it begins. *)
Lemma matchTerms_prefix_none p q s cap cap' :
  matchTerms ic p s cap = None -> matchTerms ic (p ++ q) s cap' = None.
Proof.
  revert s cap cap'; induction p as [|[A|min A capture] p IH]; intros s cap cap'.
  - discriminate.
  - destruct s as [|c s]; [reflexivity|].
    change ((Atom A :: p) ++ q) with (Atom A :: (p ++ q)).
    rewrite !matchTerms_atom. destruct (inSet ic A c); [|reflexivity].
    destruct (matchTerms ic p s cap) as [[g n]|] eqn:E; [discriminate|].
    intros _. now rewrite (IH _ _ cap' E).
  - change ((Quant min A capture :: p) ++ q) with (Quant min A capture :: (p ++ q)).
    rewrite !matchTerms_quant. destruct (run ic A s <? min)%nat; [reflexivity|].
    apply backtrack_none_mono. intros j Hj.
    destruct (matchTerms ic p (skipn j s) (if capture then Some (firstn j s) else cap))
      as [[g n]|] eqn:E; [discriminate|].
    now rewrite (IH _ _ _ E).
Qed.

End MatcherFacts.

Section ExecFacts.

Variable r : RegExp.

Lemma execFrom_hit s i g n :
  matchAt r s = Some (g, n) -> execFrom r s i = Some (mkMatch i g).
Proof. intro H. destruct s; simpl; now rewrite H. Qed.

Lemma execFrom_skip a s i :
  (forall k, k < List.length a -> matchAt r (skipn k (a ++ s)) = None) ->
  execFrom r (a ++ s) i = execFrom r s (List.length a + i).
Proof.
  revert i; induction a as [|c a IH]; intros i H; [reflexivity|].
  assert (H0 : matchAt r (c :: a ++ s) = None) by (apply (H 0); simpl; lia).
  change (execFrom r ((c :: a) ++ s) i) with
    (match matchAt r (c :: a ++ s) with
     | Some (g, _) => Some (mkMatch i g)
     | None => execFrom r (a ++ s) (S i)
     end).
  rewrite H0, IH.
  - f_equal. simpl. lia.
  - intros k Hk. apply (H (S k)). simpl; lia.
Qed.

Lemma execFrom_none s i :
  execFrom r s i = None -> forall k, matchAt r (skipn k s) = None.
Proof.
  revert i; induction s as [|c s IH]; intros i H k.
  - simpl in H. destruct (matchAt r []) as [[g n]|] eqn:E; [discriminate|].
    now destruct k.
  - simpl in H. destruct (matchAt r (c :: s)) as [[g n]|] eqn:E; [discriminate|].
    destruct k; simpl; eauto.
Qed.

Lemma execFrom_all_none s i :
  (forall k, matchAt r (skipn k s) = None) -> execFrom r s i = None.
Proof.
  revert i; induction s as [|c s IH]; intros i H; simpl;
    pose proof (H 0) as H0; simpl in H0; rewrite H0.
  - reflexivity.
  - apply IH. intro k. apply (H (S k)).
Qed.

Lemma noMatchBefore_spec s n :
  noMatchBefore r s n = true ->
  forall k, k < n -> matchAt r (skipn k s) = None.
Proof.
  unfold noMatchBefore. intros H k Hk.
  rewrite forallb_forall in H. specialize (H k).
  destruct (matchAt r (skipn k s)); [|reflexivity].
  assert (false = true); [|discriminate]. apply H. apply in_seq. lia.
Qed.

End ExecFacts.

(** ** Character sets *)

Section CharFacts.

Local Open Scope N_scope.

Ltac b2p :=
  repeat rewrite ?orb_true_iff, ?andb_true_iff, ?orb_false_iff, ?andb_false_iff,
    ?negb_true_iff, ?negb_false_iff, ?N.eqb_eq, ?N.eqb_neq, ?N.leb_le, ?N.leb_gt in *.

Ltac charset :=
  unfold inSet, Canonicalize, isStrWhiteSpaceChar, isWhiteSpace, isLineTerminator,
    isDigit in *;
  repeat match goal with
         | |- context [if ?b then _ else _] => destruct b eqn:?
         | H : context [if ?b then _ else _] |- _ => destruct b eqn:?
         end;
  try (apply not_true_iff_false; intro);
  b2p; lia.

Lemma ws_not_colon c : isStrWhiteSpaceChar c = true -> inSet true (Lit 58) c = false.
Proof. intro H. charset. Qed.

Lemma ws_not_digit c : isStrWhiteSpaceChar c = true -> inSet true ClassD c = false.
Proof. intro H. charset. Qed.

Lemma digit_not_ws c : isDigit c = true -> inSet true ClassS c = false.
Proof. intro H. charset. Qed.

Lemma digit_not_upper c L :
  isDigit c = true -> 65 <= L <= 90 -> inSet true (Lit L) c = false.
Proof. intros H HL. charset. Qed.

Lemma nonws_dot c : isStrWhiteSpaceChar c = false -> inSet true Dot c = true.
Proof. intro H. charset. Qed.

Lemma terminator_not_dot c : isLineTerminator c = true -> inSet true Dot c = false.
Proof. intro H. charset. Qed.

End CharFacts.

(** ** Tags *)

Section TagFacts.

Lemma skipn_run ic A s : skipn (run ic A s) s = dropWhile (inSet ic A) s.
Proof.
  induction s as [|c s IH]; simpl; [reflexivity|].
  destruct (inSet ic A c); simpl; auto.
Qed.

Lemma colon_after_ws q c s cap :
  inSet true ClassS c = true ->
  matchTerms true (Atom (Lit 58%N) :: q) (c :: s) cap = None.
Proof. intro H. rewrite matchTerms_atom, ws_not_colon; auto. Qed.

Lemma group_after_ws A c s cap :
  inSet true A c = false ->
  matchTerms true [plusGroup A] (c :: s) cap = None.
Proof.
  intro H. rewrite plusGroup_last.
  cbn [run]. now rewrite H.
Qed.

Lemma head_app_digit ds post :
  forallb isDigit ds = true -> ds <> [] ->
  match ds ++ post with [] => True | c :: _ => inSet true ClassS c = false end.
Proof.
  destruct ds as [|d ds]; [congruence|]. simpl. intros H _.
  apply andb_true_iff in H as [H _]. now apply digit_not_ws.
Qed.

Lemma scoreTail_match ws1 ws2 ds post cap :
  forallb isStrWhiteSpaceChar ws1 = true ->
  forallb isStrWhiteSpaceChar ws2 = true ->
  forallb isDigit ds = true -> ds <> [] ->
  startsWithDigit post = false ->
  exists n,
    matchTerms true scoreTail (ws1 ++ 58%N :: ws2 ++ ds ++ post) cap = Some (Some ds, n).
Proof.
  intros H1 H2 Hd Hne Hpost. unfold scoreTail.
  rewrite star_commit by (intros; now apply colon_after_ws).
  rewrite (run_app true ClassS ws1 (58%N :: ws2 ++ ds ++ post)), skipn_app_length;
    [|assumption|reflexivity].
  rewrite matchTerms_atom.
  change (inSet true (Lit 58%N) 58%N) with true. cbv iota.
  rewrite star_commit
    by (intros c s' cap' Hc; apply group_after_ws; now apply ws_not_digit).
  rewrite (run_app true ClassS ws2 (ds ++ post)), skipn_app_length;
    [|assumption|now apply head_app_digit].
  rewrite plusGroup_last.
  rewrite (run_app true ClassD ds post), firstn_app_length;
    [|assumption|destruct post; [trivial|exact Hpost]].
  destruct ds as [|d ds]; [congruence|]. simpl. eauto.
Qed.

(** A score tag in any letter case, with white space around its colon,
    followed by digits: the pattern matches there and captures the whole
    run of digits. *)
Lemma score_match name tag ws1 ws2 ds post :
  litMatches true (js name) tag = true ->
  forallb isStrWhiteSpaceChar ws1 = true ->
  forallb isStrWhiteSpaceChar ws2 = true ->
  forallb isDigit ds = true -> ds <> [] ->
  startsWithDigit post = false ->
  exists n,
    matchAt (mkRegExp (lit name ++ scoreTail) true)
      (tag ++ ws1 ++ 58%N :: ws2 ++ ds ++ post) = Some (Some ds, n).
Proof.
  intros Htag H1 H2 Hd Hne Hpost.
  destruct (scoreTail_match ws1 ws2 ds post None H1 H2 Hd Hne Hpost) as [n Hn].
  unfold matchAt, lit. cbn [pattern ignoreCase].
  rewrite lit_match by assumption. rewrite Hn. simpl. eauto.
Qed.

(** The first match decides: a tag before which no match begins gives
    the score. *)
Lemma score_parse name pre tag ws1 ws2 n post :
  let r := mkRegExp (lit name ++ scoreTail) true in
  let raw := pre ++ tag ++ ws1 ++ 58%N :: ws2 ++ decimal n ++ post in
  (n <= 2 ^ 53)%N ->
  noMatchBefore r raw (List.length pre) = true ->
  litMatches true (js name) tag = true ->
  forallb isStrWhiteSpaceChar ws1 = true ->
  forallb isStrWhiteSpaceChar ws2 = true ->
  startsWithDigit post = false ->
  match String_match raw r with
  | Some m => Some (Number (group1 m))
  | None => None
  end = Some (Num n).
Proof.
  intros r raw Hn Hpre Htag H1 H2 Hpost.
  destruct (score_match name tag ws1 ws2 (decimal n) post Htag H1 H2
              (decimal_digits n) (decimal_nonempty n) Hpost) as [k Hk].
  unfold String_match, raw.
  rewrite execFrom_skip by (apply noMatchBefore_spec; exact Hpre).
  rewrite (execFrom_hit _ _ _ _ _ Hk). cbn [group1].
  now rewrite Number_decimal.
Qed.

End TagFacts.

(** ** [parseModelOutput] *)

Section ParserFacts.

Lemma fitScore_eq raw :
  fitScore (parseModelOutput raw) =
  match String_match raw FIT_SCORE_RE with
  | Some m => Some (Number (group1 m))
  | None => None
  end.
Proof. reflexivity. Qed.

Lemma riskScore_eq raw :
  riskScore (parseModelOutput raw) =
  match String_match raw RISK_SCORE_RE with
  | Some m => Some (Number (group1 m))
  | None => None
  end.
Proof. reflexivity. Qed.

Lemma verdict_eq raw :
  verdict (parseModelOutput raw) =
  match String_match raw VERDICT_RE with
  | Some m => trim (group1_text m)
  | None => NO_VERDICT
  end.
Proof. reflexivity. Qed.

Lemma report_eq raw :
  report (parseModelOutput raw) =
  if negb (String_search raw REPORT_RE =? -1)%Z then
    let after := slice raw (String_search raw REPORT_RE) in
    if negb (indexOf after 10%N =? -1)%Z
    then trim (slice after (indexOf after 10%N + 1)%Z)
    else trim after
  else raw.
Proof. reflexivity. Qed.

Lemma search_none r s : String_search s r = (-1)%Z -> execFrom r s 0 = None.
Proof.
  unfold String_search. destruct (execFrom r s 0); [lia|reflexivity].
Qed.

Lemma not_occurs r s : occurs r s = false -> execFrom r s 0 = None.
Proof.
  unfold occurs. intro H. apply negb_false_iff, Z.eqb_eq in H.
  now apply search_none.
Qed.

(** A pattern that extends a tag pattern finds nothing where the tag
    does not occur. *)
Lemma no_tag_no_match name q s :
  occurs (tagRE name) s = false ->
  execFrom (mkRegExp ((lit name ++ [star ClassS; Atom (Lit 58%N)]) ++ q) true) s 0 = None.
Proof.
  intro H. apply not_occurs in H.
  apply execFrom_all_none. intro k.
  pose proof (execFrom_none _ _ _ H k) as Hk.
  unfold matchAt in *. cbn [pattern ignoreCase tagRE] in *.
  now apply matchTerms_prefix_none with (cap := None).
Qed.

End ParserFacts.

(** ** The group always takes part

    In the three patterns with a group, the group is the last term and
    must match at least once: element 1 of a match is never [undefined],
    and for the score patterns it is a run of digits, so that [Number]
    never yields [NaN]. *)

Section GroupFacts.

Lemma backtrack_some (R : Type) k min (try : nat -> option R) r :
  backtrack k min try = Some r -> exists j, j <= k /\ try j = Some r.
Proof.
  induction k as [|k IH]; simpl.
  - destruct (try 0) eqn:E; [|discriminate]. intros [= <-]. eauto.
  - destruct (try (S k)) eqn:E.
    + intros [= <-]. eauto.
    + destruct (k <? min); [discriminate|].
      intro H. destruct (IH H) as (j & Hj & Ej). eauto.
Qed.

Lemma firstn_run ic A s :
  forallb (inSet ic A) (firstn (run ic A s) s) = true.
Proof.
  induction s as [|c s IH]; simpl; [reflexivity|].
  destruct (inSet ic A c) eqn:E; simpl; [now rewrite E|reflexivity].
Qed.

Lemma group_takes_part ic A p s cap g n :
  matchTerms ic (p ++ [plusGroup A]) s cap = Some (g, n) ->
  exists ds, g = Some ds /\ ds <> [] /\ forallb (inSet ic A) ds = true.
Proof.
  revert s cap n; induction p as [|[B|min B capture] p IH]; intros s cap n.
  - cbn [app]. rewrite plusGroup_last.
    destruct (run ic A s <? 1) eqn:E; [discriminate|]. intros [= <- _].
    exists (firstn (run ic A s) s). split; [reflexivity|]. split.
    + apply Nat.ltb_ge in E. destruct s as [|c s]; [simpl in E; lia|].
      simpl in *. destruct (inSet ic A c); [discriminate|lia].
    + apply firstn_run.
  - destruct s as [|c s]; [discriminate|].
    change ((Atom B :: p) ++ [plusGroup A]) with (Atom B :: (p ++ [plusGroup A])).
    rewrite matchTerms_atom. destruct (inSet ic B c); [|discriminate].
    destruct (matchTerms ic (p ++ [plusGroup A]) s cap) as [[g' n']|] eqn:E;
      [|discriminate].
    intros [= <- _]. eapply IH; eassumption.
  - change ((Quant min B capture :: p) ++ [plusGroup A])
      with (Quant min B capture :: (p ++ [plusGroup A])).
    rewrite matchTerms_quant. destruct (run ic B s <? min); [discriminate|].
    intro H. apply backtrack_some in H as (j & _ & Hj).
    destruct (matchTerms ic (p ++ [plusGroup A]) (skipn j s)
                (if capture then Some (firstn j s) else cap)) as [[g' n']|] eqn:E;
      [|discriminate].
    injection Hj as <- _. eapply IH; eassumption.
Qed.

Lemma execFrom_some r s i m :
  execFrom r s i = Some m -> exists t n, matchAt r t = Some (group1 m, n).
Proof.
  revert i; induction s as [|c s IH]; intro i; simpl.
  - destruct (matchAt r []) as [[g n]|] eqn:E; [|discriminate].
    intros [= <-]. eauto.
  - destruct (matchAt r (c :: s)) as [[g n]|] eqn:E; [|now apply IH].
    intros [= <-]. eauto.
Qed.




(** Element 1 of a verdict match is a string, and not an empty one. *)
Lemma verdict_group_defined raw m :
  String_match raw VERDICT_RE = Some m ->
  exists g, group1 m = Some g /\ g <> [].
Proof.
  intro H. apply execFrom_some in H as (t & n & H).
  unfold matchAt in H. cbn [pattern ignoreCase VERDICT_RE] in H.
  change (lit "VERDICT" ++ [star ClassS; Atom (Lit 58%N); star ClassS; plusGroup Dot])
    with ((lit "VERDICT" ++ [star ClassS; Atom (Lit 58%N); star ClassS])
          ++ [plusGroup Dot]) in H.
  apply group_takes_part in H as (ds & -> & Hne & _). eauto.
Qed.

End GroupFacts.

(** ** Claims about the parser *)

(** C8, as stated, fails: a negative integer after the tag is not a run
    of digits and gives [null]; an integer above [2^53] is rounded to a
    double; and a tag that follows an earlier match is not the one read. *)
Lemma C8_score_tag_counterexample :
  fitScore (parseModelOutput (js "FIT_SCORE:-7")) = None
  /\ fitScore (parseModelOutput (js "FIT_SCORE:9007199254740993"))
       = Some (Num 9007199254740992)
  /\ fitScore (parseModelOutput (js "FIT_SCORE:3 fit_score:   7")) = Some (Num 3).
Proof. repeat split; vm_compute; reflexivity. Qed.

(** C8 (amended): tag matching ignores letter case and allows white space
    around the colon. For every natural number [n <= 2^53] written in
    decimal, an input made of [fit_score:   n] or of [FIT_SCORE:n],
    after any text in which no match of the pattern begins and before any
    text that does not start with a digit, yields [fitScore = n]; and the
    same holds of [RISK_SCORE] and [riskScore]. *)
Theorem C8_score_tag_case_and_space (n : N) (pre post : jsstring) :
  (n <= 2 ^ 53)%N ->
  startsWithDigit post = false ->
  (noMatchBefore FIT_SCORE_RE (pre ++ js "fit_score:   " ++ decimal n ++ post)
     (List.length pre) = true ->
   fitScore (parseModelOutput (pre ++ js "fit_score:   " ++ decimal n ++ post))
   = Some (Num n))
  /\ (noMatchBefore FIT_SCORE_RE (pre ++ js "FIT_SCORE:" ++ decimal n ++ post)
        (List.length pre) = true ->
      fitScore (parseModelOutput (pre ++ js "FIT_SCORE:" ++ decimal n ++ post))
      = Some (Num n))
  /\ (noMatchBefore RISK_SCORE_RE (pre ++ js "risk_score:   " ++ decimal n ++ post)
        (List.length pre) = true ->
      riskScore (parseModelOutput (pre ++ js "risk_score:   " ++ decimal n ++ post))
      = Some (Num n))
  /\ (noMatchBefore RISK_SCORE_RE (pre ++ js "RISK_SCORE:" ++ decimal n ++ post)
        (List.length pre) = true ->
      riskScore (parseModelOutput (pre ++ js "RISK_SCORE:" ++ decimal n ++ post))
      = Some (Num n)).
Proof.
  intros Hn Hpost. repeat split; intro Hpre.
  - rewrite fitScore_eq.
    exact (score_parse "FIT_SCORE" pre (js "fit_score") [] (js "   ") n post
             Hn Hpre eq_refl eq_refl eq_refl Hpost).
  - rewrite fitScore_eq.
    exact (score_parse "FIT_SCORE" pre (js "FIT_SCORE") [] [] n post
             Hn Hpre eq_refl eq_refl eq_refl Hpost).
  - rewrite riskScore_eq.
    exact (score_parse "RISK_SCORE" pre (js "risk_score") [] (js "   ") n post
             Hn Hpre eq_refl eq_refl eq_refl Hpost).
  - rewrite riskScore_eq.
    exact (score_parse "RISK_SCORE" pre (js "RISK_SCORE") [] [] n post
             Hn Hpre eq_refl eq_refl eq_refl Hpost).
Qed.

Lemma C8_score_tag_witness :
  fitScore (parseModelOutput (js "Scores: fit_score:   7, as asked")) = Some (Num 7)
  /\ fitScore (parseModelOutput (js "Scores: FIT_SCORE:7, as asked")) = Some (Num 7)
  /\ riskScore (parseModelOutput (js "Scores: risk_score:   7, as asked")) = Some (Num 7)
  /\ riskScore (parseModelOutput (js "Scores: RISK_SCORE:7, as asked")) = Some (Num 7).
Proof.
  assert (H : (7 <= 2 ^ 53)%N) by (vm_compute; discriminate).
  destruct (C8_score_tag_case_and_space 7 (js "Scores: ") (js ", as asked") H eq_refl)
    as (H1 & H2 & H3 & H4).
  split; [apply H1; reflexivity|].
  split; [apply H2; reflexivity|].
  split; [apply H3; reflexivity|apply H4; reflexivity].
Defined.

(** C7, as stated, fails: [FIT_SCORE : 5] has no tag written with the
    colon next to the name, yet its score is read. *)
Lemma C7_no_tags_counterexample :
  forallb (fun name => negb (occurs (literalTagRE name) (js "FIT_SCORE : 5")))
    TAG_NAMES = true
  /\ fitScore (parseModelOutput (js "FIT_SCORE : 5")) = Some (Num 5).
Proof. split; vm_compute; reflexivity. Qed.

(** C7 (amended): for every raw string in which none of the names
    FIT_SCORE, RISK_SCORE, VERDICT, REPORT occurs (in any letter case)
    followed by optional white space and a colon, [parseModelOutput]
    returns null scores, the fixed fallback verdict, and the raw text
    itself, untrimmed, as the report. *)
Theorem C7_no_tags_fail_open (raw : jsstring) :
  forallb (fun name => negb (occurs (tagRE name) raw)) TAG_NAMES = true ->
  parseModelOutput raw = mkParsed None None NO_VERDICT raw.
Proof.
  intro H. cbn [forallb TAG_NAMES] in H.
  repeat (apply andb_true_iff in H as [?H H]).
  repeat match goal with
         | H : negb _ = true |- _ => apply negb_true_iff in H
         end.
  pose proof (no_tag_no_match "FIT_SCORE" [star ClassS; plusGroup ClassD] raw H0) as Hf.
  pose proof (no_tag_no_match "RISK_SCORE" [star ClassS; plusGroup ClassD] raw H1) as Hr.
  pose proof (no_tag_no_match "VERDICT" [star ClassS; plusGroup Dot] raw H2) as Hv.
  pose proof (not_occurs _ _ H3) as Hp.
  unfold parseModelOutput, String_match, String_search.
  change (execFrom FIT_SCORE_RE raw 0) with
    (execFrom (mkRegExp ((lit "FIT_SCORE" ++ [star ClassS; Atom (Lit 58%N)])
                           ++ [star ClassS; plusGroup ClassD]) true) raw 0).
  change (execFrom RISK_SCORE_RE raw 0) with
    (execFrom (mkRegExp ((lit "RISK_SCORE" ++ [star ClassS; Atom (Lit 58%N)])
                           ++ [star ClassS; plusGroup ClassD]) true) raw 0).
  change (execFrom VERDICT_RE raw 0) with
    (execFrom (mkRegExp ((lit "VERDICT" ++ [star ClassS; Atom (Lit 58%N)])
                           ++ [star ClassS; plusGroup Dot]) true) raw 0).
  change (execFrom REPORT_RE raw 0) with (execFrom (tagRE "REPORT") raw 0).
  rewrite Hf, Hr, Hv, Hp. reflexivity.
Qed.

Lemma C7_no_tags_witness :
  parseModelOutput (js "  I cannot assess this resume. ")
  = mkParsed None None NO_VERDICT (js "  I cannot assess this resume. ").
Proof. apply C7_no_tags_fail_open. vm_compute. reflexivity. Defined.

(** C5: the code departs from the claim. With [REPORT:] found and no
    line break after it, the report is the text from the marker on, so it
    begins with the marker instead of leaving it out. *)
Theorem C5_report_keeps_marker :
  report (parseModelOutput (js "REPORT: body")) = js "REPORT: body"
  /\ report (parseModelOutput (js "REPORT: body")) <> js "body".
Proof. split; vm_compute; [reflexivity|discriminate]. Qed.

(** C6: the code departs from the claim. The white space allowed after
    the colon includes line breaks, so an empty verdict line makes the
    verdict the text of the following line. *)
Theorem C6_verdict_from_next_line :
  let raw := js "VERDICT:" ++ LF ++ js "REPORT:" ++ LF ++ js "Alignment: ok" in
  verdict (parseModelOutput raw) = js "REPORT:"
  /\ verdict (parseModelOutput raw) <> [].
Proof. split; vm_compute; [reflexivity|discriminate]. Qed.

(** ** Where the first match is *)

Section FirstMatch.

Lemma NoMatchIn_nil r s : NoMatchIn r [] s.
Proof. intros k Hk. simpl in Hk. lia. Qed.

Lemma NoMatchIn_app r a b s :
  NoMatchIn r a (b ++ s) -> NoMatchIn r b s -> NoMatchIn r (a ++ b) s.
Proof.
  intros Ha Hb k Hk. rewrite <- app_assoc.
  destruct (Nat.lt_ge_cases k (List.length a)) as [Hlt|Hge].
  - now apply Ha.
  - rewrite skipn_app, skipn_all2 by assumption. simpl.
    apply Hb. rewrite length_app in Hk. lia.
Qed.

Lemma execFrom_past r a s i :
  NoMatchIn r a s -> execFrom r (a ++ s) i = execFrom r s (List.length a + i).
Proof. intro H. now apply execFrom_skip. Qed.

Lemma skipn_inside (P : cu -> bool) a s k :
  forallb P a = true -> k < List.length a ->
  exists c t, skipn k (a ++ s) = c :: t /\ P c = true.
Proof.
  revert k; induction a as [|x a IH]; intros k Ha Hk; simpl in Hk; [lia|].
  simpl in Ha. apply andb_true_iff in Ha as [Hx Ha].
  destruct k as [|k]; simpl; [eauto|]. apply IH; [assumption|lia].
Qed.

(** A pattern that begins with a letter does not match at a digit. *)
Lemma NoMatchIn_digits r L p ds s :
  pattern r = Atom (Lit L) :: p -> ignoreCase r = true -> (65 <= L <= 90)%N ->
  forallb isDigit ds = true -> NoMatchIn r ds s.
Proof.
  intros Hp Hi HL Hd k Hk.
  destruct (skipn_inside isDigit ds s k Hd Hk) as (c & t & -> & Hc).
  unfold matchAt. rewrite Hp, Hi, matchTerms_atom.
  now rewrite digit_not_upper.
Qed.

Lemma shift_none k r : r = None -> shift k r = None.
Proof. now intros ->. Qed.

Lemma shift_none_inv k r : shift k r = None -> r = None.
Proof. destruct r as [[g n]|]; [discriminate|reflexivity]. Qed.

Lemma ws_colon_straddle u t cap :
  matchTerms true [star ClassS; Atom (Lit 58%N)] u cap = None ->
  matchTerms true [star ClassS; Atom (Lit 58%N)] (u ++ 10%N :: 82%N :: t) cap = None.
Proof.
  rewrite !star_commit by (intros; now apply colon_after_ws).
  rewrite !skipn_run. intro H. apply shift_none_inv in H. apply shift_none.
  induction u as [|x u IH].
  - reflexivity.
  - cbn [dropWhile app] in *. destruct (inSet true ClassS x); [now apply IH|].
    rewrite matchTerms_atom in *.
    destruct (inSet true (Lit 58%N) x); [|reflexivity].
    simpl in H. discriminate.
Qed.

Lemma REPORT_pattern :
  pattern REPORT_RE =
  [Atom (Lit 82%N); Atom (Lit 69%N); Atom (Lit 80%N); Atom (Lit 79%N);
   Atom (Lit 82%N); Atom (Lit 84%N); star ClassS; Atom (Lit 58%N)].
Proof. reflexivity. Qed.

Ltac peel :=
  rewrite matchTerms_atom;
  match goal with
  | |- (if inSet true ?A ?c then _ else _) = None =>
      first [ change (inSet true A c) with false; reflexivity
            | destruct (inSet true A c); [apply shift_none|reflexivity] ]
  end.

Ltac peel_both H :=
  rewrite matchTerms_atom in H; rewrite matchTerms_atom;
  match goal with
  | |- (if inSet true ?A ?c then _ else _) = None =>
      destruct (inSet true A c); [apply shift_none_inv in H; apply shift_none|reflexivity]
  end.

(** A match of [REPORT\s*:] that begins before a line break followed by
    [R] ends before it. *)
Lemma REPORT_straddle u t :
  matchAt REPORT_RE u = None -> matchAt REPORT_RE (u ++ 10%N :: 82%N :: t) = None.
Proof.
  unfold matchAt. rewrite REPORT_pattern. cbn [ignoreCase REPORT_RE].
  intro H.
  destruct u as [|c1 [|c2 [|c3 [|c4 [|c5 [|c6 u]]]]]]; cbn [app];
    try (repeat peel; fail).
  do 6 peel_both H.
  now apply ws_colon_straddle.
Qed.

Lemma NoMatchIn_REPORT v t :
  occurs REPORT_RE v = false -> NoMatchIn REPORT_RE v (10%N :: 82%N :: t).
Proof.
  intros H k Hk. apply not_occurs in H.
  rewrite skipn_app. replace (k - List.length v) with 0 by lia. cbn [skipn].
  apply REPORT_straddle. now apply (execFrom_none _ _ _ H).
Qed.

End FirstMatch.

(** ** The reply template *)

Section TemplateFacts.

Lemma dropWhile_split p s :
  exists a, s = a ++ dropWhile p s /\ forallb p a = true.
Proof.
  induction s as [|c s (a & Hs & Ha)]; simpl.
  - now exists [].
  - destruct (p c) eqn:E.
    + exists (c :: a). simpl. rewrite E. split; [congruence|assumption].
    + now exists [].
Qed.

Lemma dropWhile_head p s c l : dropWhile p s = c :: l -> p c = false.
Proof.
  induction s as [|x s IH]; simpl; [discriminate|].
  destruct (p x) eqn:E; [assumption|]. now intros [= <- _].
Qed.

Lemma forallb_dropWhile (q p : cu -> bool) s :
  forallb q s = true -> forallb q (dropWhile p s) = true.
Proof.
  induction s as [|x s IH]; simpl; [trivial|].
  intro H. destruct (p x); [|exact H].
  apply andb_true_iff in H as [_ H]. auto.
Qed.

(** Trimming what is left after the leading white space is trimming. *)
Lemma trim_trimStart v : trim (trimStart v) = trim v.
Proof.
  unfold trim. f_equal. unfold trimStart.
  destruct (dropWhile isStrWhiteSpaceChar v) as [|c l] eqn:E; [reflexivity|].
  simpl. now rewrite (dropWhile_head _ _ _ _ E).
Qed.

Lemma slice_app a b : slice (a ++ b) (Z.of_nat (List.length a)) = b.
Proof.
  unfold slice. rewrite length_app.
  destruct (Z.ltb_spec (Z.of_nat (List.length a)) 0) as [H|H]; [lia|].
  rewrite Z.min_l by lia. rewrite Nat2Z.id. apply skipn_app_length.
Qed.

Lemma VERDICT_pattern :
  pattern VERDICT_RE =
  map (fun c => Atom (Lit c)) (js "VERDICT")
  ++ [star ClassS; Atom (Lit 58%N); star ClassS; plusGroup Dot].
Proof. reflexivity. Qed.

(** A verdict tag followed on its own line by a character that is not
    white space: the group captures from that character to the end of the
    line. *)
Lemma verdict_match tag ws1 ws2 c line t :
  litMatches true (js "VERDICT") tag = true ->
  forallb isStrWhiteSpaceChar ws1 = true ->
  forallb isStrWhiteSpaceChar ws2 = true ->
  isStrWhiteSpaceChar c = false ->
  singleLine line = true ->
  match t with [] => True | x :: _ => isLineTerminator x = true end ->
  exists n,
    matchAt VERDICT_RE (tag ++ ws1 ++ 58%N :: ws2 ++ c :: line ++ t)
    = Some (Some (c :: line), n).
Proof.
  intros Htag H1 H2 Hc Hline Ht.
  unfold matchAt. rewrite VERDICT_pattern. cbn [ignoreCase VERDICT_RE].
  rewrite lit_match by assumption.
  rewrite star_commit by (intros; now apply colon_after_ws).
  rewrite (run_app true ClassS ws1 (58%N :: ws2 ++ c :: line ++ t)), skipn_app_length;
    [|assumption|reflexivity].
  rewrite matchTerms_atom.
  change (inSet true (Lit 58%N) 58%N) with true. cbv iota.
  unfold star at 1. rewrite matchTerms_quant.
  rewrite (run_app true ClassS ws2 (c :: line ++ t)); [|assumption|exact Hc].
  change (List.length ws2 <? 0) with false. cbv iota.
  assert (Hrun : run true Dot ((c :: line) ++ t) = List.length (c :: line)).
  { apply run_app.
    - cbn [forallb]. rewrite (nonws_dot c Hc). exact Hline.
    - destruct t as [|x t]; [trivial|]. now apply terminator_not_dot. }
  erewrite backtrack_top.
  2:{ rewrite skipn_app_length, plusGroup_last.
      change (c :: line ++ t) with ((c :: line) ++ t).
      rewrite Hrun, firstn_app_length. cbn [List.length Nat.ltb Nat.leb shift].
      reflexivity. }
  cbn [shift]. eauto.
Qed.

Lemma template_risk f r v body :
  template f r v body =
  beforeRisk f ++ js "RISK_SCORE" ++ [] ++ 58%N :: js " " ++ decimal r
    ++ (LF ++ js "VERDICT: " ++ v ++ LF ++ js "REPORT:" ++ LF ++ body).
Proof.
  unfold template, beforeRisk. rewrite <- !app_assoc. reflexivity.
Qed.

Lemma template_verdict f r v body :
  template f r v body =
  beforeVerdict f r ++ js "VERDICT: " ++ v ++ LF ++ js "REPORT:" ++ LF ++ body.
Proof.
  unfold template, beforeVerdict, beforeRisk. rewrite <- !app_assoc. reflexivity.
Qed.

Lemma template_report f r v body :
  template f r v body = beforeReport f r v ++ js "REPORT:" ++ LF ++ body.
Proof.
  unfold template, beforeReport, beforeVerdict, beforeRisk.
  rewrite <- !app_assoc. reflexivity.
Qed.

Ltac concrete_segment :=
  let k := fresh "k" in
  let Hk := fresh "Hk" in
  intros k Hk;
  repeat (destruct k as [|k]; [reflexivity|]);
  exfalso; vm_compute in Hk; lia.

Ltac digit_segment :=
  eapply NoMatchIn_digits;
  [reflexivity|reflexivity|vm_compute; split; discriminate|apply decimal_digits].

Ltac segments :=
  rewrite <- ?app_assoc;
  repeat (apply NoMatchIn_app; [first [digit_segment | concrete_segment]|]);
  first [digit_segment | concrete_segment].

Lemma NoMatchIn_beforeRisk f s : NoMatchIn RISK_SCORE_RE (beforeRisk f) s.
Proof. unfold beforeRisk. segments. Qed.

Lemma NoMatchIn_beforeVerdict f r s : NoMatchIn VERDICT_RE (beforeVerdict f r) s.
Proof. unfold beforeVerdict, beforeRisk. segments. Qed.

Lemma NoMatchIn_beforeReport f r v t :
  occurs REPORT_RE v = false ->
  NoMatchIn REPORT_RE (beforeReport f r v) (82%N :: t).
Proof.
  intro Hv. unfold beforeReport, beforeVerdict, beforeRisk.
  rewrite <- ?app_assoc.
  do 7 (apply NoMatchIn_app; [first [digit_segment | concrete_segment]|]).
  apply NoMatchIn_app; [|concrete_segment].
  now apply NoMatchIn_REPORT.
Qed.

Lemma score_parse_in name pre tag ws1 ws2 n post :
  let r := mkRegExp (lit name ++ scoreTail) true in
  (n <= 2 ^ 53)%N ->
  NoMatchIn r pre (tag ++ ws1 ++ 58%N :: ws2 ++ decimal n ++ post) ->
  litMatches true (js name) tag = true ->
  forallb isStrWhiteSpaceChar ws1 = true ->
  forallb isStrWhiteSpaceChar ws2 = true ->
  startsWithDigit post = false ->
  match String_match (pre ++ tag ++ ws1 ++ 58%N :: ws2 ++ decimal n ++ post) r with
  | Some m => Some (Number (group1 m))
  | None => None
  end = Some (Num n).
Proof.
  intros r Hn Hpre Htag H1 H2 Hpost.
  destruct (score_match name tag ws1 ws2 (decimal n) post Htag H1 H2
              (decimal_digits n) (decimal_nonempty n) Hpost) as [k Hk].
  unfold String_match.
  rewrite execFrom_past by exact Hpre.
  rewrite (execFrom_hit _ _ _ _ _ Hk). cbn [group1].
  now rewrite Number_decimal.
Qed.

Lemma template_fitScore f r v body :
  (f <= 2 ^ 53)%N -> fitScore (parseModelOutput (template f r v body)) = Some (Num f).
Proof.
  intro Hf. rewrite fitScore_eq.
  exact (score_parse_in "FIT_SCORE" [] (js "FIT_SCORE") [] (js " ") f
           (LF ++ js "RISK_SCORE: " ++ decimal r ++ LF ++ js "VERDICT: " ++ v ++ LF
               ++ js "REPORT:" ++ LF ++ body)
           Hf (NoMatchIn_nil _ _) eq_refl eq_refl eq_refl eq_refl).
Qed.

Lemma template_riskScore f r v body :
  (r <= 2 ^ 53)%N -> riskScore (parseModelOutput (template f r v body)) = Some (Num r).
Proof.
  intro Hr. rewrite riskScore_eq, template_risk.
  exact (score_parse_in "RISK_SCORE" (beforeRisk f) (js "RISK_SCORE") [] (js " ") r
           (LF ++ js "VERDICT: " ++ v ++ LF ++ js "REPORT:" ++ LF ++ body)
           Hr (NoMatchIn_beforeRisk f _) eq_refl eq_refl eq_refl eq_refl).
Qed.

Lemma template_verdict_field f r v body :
  singleLine v = true -> trim v <> [] ->
  verdict (parseModelOutput (template f r v body)) = trim v.
Proof.
  intros Hline Hne. rewrite verdict_eq, template_verdict.
  destruct (dropWhile_split isStrWhiteSpaceChar v) as (a & Hv & Ha).
  destruct (dropWhile isStrWhiteSpaceChar v) as [|c line] eqn:E.
  { elim Hne. unfold trim, trimStart. now rewrite E. }
  pose proof (dropWhile_head _ _ _ _ E) as Hc.
  assert (Hl : singleLine line = true).
  { pose proof (forallb_dropWhile (fun x => negb (isLineTerminator x))
                  isStrWhiteSpaceChar v Hline) as H.
    rewrite E in H. cbn [forallb] in H. now apply andb_true_iff in H as [_ H]. }
  set (t := LF ++ js "REPORT:" ++ LF ++ body).
  destruct (verdict_match (js "VERDICT") [] (js " " ++ a) c line t) as [n Hn];
    try reflexivity; try assumption.
  assert (Hraw : js "VERDICT: " ++ v ++ t
                 = js "VERDICT" ++ [] ++ 58%N :: (js " " ++ a) ++ c :: line ++ t).
  { rewrite Hv at 1. rewrite <- !app_assoc. reflexivity. }
  unfold String_match. fold t. rewrite Hraw.
  rewrite execFrom_past by apply NoMatchIn_beforeVerdict.
  rewrite (execFrom_hit _ _ _ _ _ Hn). cbn [group1_text group1].
  rewrite <- (trim_trimStart v). unfold trimStart. now rewrite E.
Qed.

Lemma report_after P body :
  NoMatchIn REPORT_RE P (js "REPORT:" ++ LF ++ body) ->
  report (parseModelOutput (P ++ js "REPORT:" ++ LF ++ body)) = trim body.
Proof.
  intro HP. rewrite report_eq.
  assert (Hs : String_search (P ++ js "REPORT:" ++ LF ++ body) REPORT_RE
               = Z.of_nat (List.length P)).
  { unfold String_search. rewrite execFrom_past by exact HP.
    rewrite (execFrom_hit REPORT_RE (js "REPORT:" ++ LF ++ body) _ None 7 eq_refl).
    cbn [index]. f_equal. lia. }
  rewrite Hs.
  destruct (Z.eqb_spec (Z.of_nat (List.length P)) (-1)) as [H|_]; [lia|].
  cbn [negb]. cbv zeta. rewrite slice_app.
  change (indexOf (js "REPORT:" ++ LF ++ body) 10%N) with 7%Z.
  cbn [Z.eqb negb].
  exact (f_equal trim (slice_app (js "REPORT:" ++ LF) body)).
Qed.

Lemma template_report_field f r v body :
  occurs REPORT_RE v = false ->
  report (parseModelOutput (template f r v body)) = trim body.
Proof.
  intro Hv. rewrite template_report. apply report_after.
  now apply (NoMatchIn_beforeReport f r v).
Qed.

End TemplateFacts.

(** C3, as stated, fails: a verdict line that mentions [report:] moves
    the start of the report; a verdict line of white space takes the
    verdict from the next line; a score above [2^53] is rounded. *)
Lemma C3_template_counterexample :
  report (parseModelOutput (template 1 2 (js "see report: x") (js "body")))
    = js "REPORT:" ++ LF ++ js "body"
  /\ verdict (parseModelOutput (template 1 2 (js " ") (js "body"))) = js "REPORT:"
  /\ fitScore (parseModelOutput (template 9007199254740993 2 (js "ok") (js "body")))
     = Some (Num 9007199254740992).
Proof. repeat split; vm_compute; reflexivity. Qed.

(** C3 (amended): for natural numbers [f, r <= 2^53] written in decimal,
    a verdict [v] without line terminators that has a character other
    than white space and contains no [REPORT], in any letter case,
    followed by optional white space and a colon, and any [body], the raw
    string [FIT_SCORE: f\nRISK_SCORE: r\nVERDICT: v\nREPORT:\nbody] parses
    to [fitScore = f], [riskScore = r], [verdict = v] trimmed and
    [report = body] trimmed. *)
Theorem C3_template_round_trip (f r : N) (v body : jsstring) :
  (f <= 2 ^ 53)%N -> (r <= 2 ^ 53)%N ->
  singleLine v = true -> trim v <> [] -> occurs REPORT_RE v = false ->
  parseModelOutput (template f r v body)
  = mkParsed (Some (Num f)) (Some (Num r)) (trim v) (trim body).
Proof.
  intros Hf Hr Hline Hne Hv.
  change (parseModelOutput (template f r v body)) with
    (mkParsed (fitScore (parseModelOutput (template f r v body)))
              (riskScore (parseModelOutput (template f r v body)))
              (verdict (parseModelOutput (template f r v body)))
              (report (parseModelOutput (template f r v body)))).
  rewrite template_fitScore, template_riskScore, template_verdict_field,
    template_report_field by assumption.
  reflexivity.
Qed.

Lemma C3_template_witness :
  parseModelOutput
    (template 9 2 (js "Strong match.") (js "Alignment: ..." ++ LF))
  = mkParsed (Some (Num 9)) (Some (Num 2)) (js "Strong match.") (js "Alignment: ...").
Proof.
  assert (H9 : (9 <= 2 ^ 53)%N) by (vm_compute; discriminate).
  assert (H2 : (2 <= 2 ^ 53)%N) by (vm_compute; discriminate).
  assert (Hne : trim (js "Strong match.") <> []) by (vm_compute; discriminate).
  exact (C3_template_round_trip 9 2 (js "Strong match.") (js "Alignment: ..." ++ LF)
           H9 H2 eq_refl Hne eq_refl).
Defined.

(** ** The handler *)

Section ServerFacts.

Variable Agent : Type.
Variable runTask :
  jsstring -> jsstring -> Agent -> (list TaskEvent * option thrown) * Agent.

Lemma modelCalls_app tr1 tr2 :
  modelCalls (tr1 ++ tr2) = modelCalls tr1 ++ modelCalls tr2.
Proof. unfold modelCalls. apply flat_map_app. Qed.

Lemma runZypherTask_trace prompt (w : World Agent) o w' :
  runZypherTask runTask prompt w = (o, w') ->
  trace w' = trace w ++ [ModelCall prompt MODEL_NAME].
Proof.
  unfold runZypherTask.
  destruct (runTask prompt MODEL_NAME (agent w)) as [[events [err|]] a'];
    intros [= <- <-]; reflexivity.
Qed.

Lemma analyzeOne_throw jd r (w w1 : World Agent) err :
  runZypherTask runTask (buildPrompt jd (ResumeInput.text r)) w = (Throw err, w1) ->
  analyzeOne runTask jd r w =
  (Return (None, None, FALLBACK_VERDICT, js "Raw error: " ++ errorText err),
   logFailure r err w1).
Proof.
  intro H. unfold analyzeOne, tryCatch, bind. now rewrite H.
Qed.

Lemma analyzeOne_return jd r (w w1 : World Agent) raw :
  runZypherTask runTask (buildPrompt jd (ResumeInput.text r)) w = (Return raw, w1) ->
  analyzeOne runTask jd r w =
  (Return (fitScore (parseModelOutput raw), riskScore (parseModelOutput raw),
           verdict (parseModelOutput raw), report (parseModelOutput raw)),
   mkWorld (agent w1)
     (trace w1 ++ [ConsoleLog (rawOutputMessage (ResumeInput.id r) raw)])).
Proof.
  intro H. unfold analyzeOne, tryCatch, bind. now rewrite H.
Qed.

(** One turn of the loop always yields its four locals, and calls the
    model exactly once. *)
Lemma analyzeOne_total jd r (w : World Agent) :
  exists l w',
    analyzeOne runTask jd r w = (Return l, w')
    /\ modelCalls (trace w') =
       modelCalls (trace w) ++ [buildPrompt jd (ResumeInput.text r)].
Proof.
  destruct (runZypherTask runTask (buildPrompt jd (ResumeInput.text r)) w)
    as [[raw|err] w1] eqn:E;
    pose proof (runZypherTask_trace _ _ _ _ E) as Htr.
  - rewrite (analyzeOne_return _ _ _ _ _ E). do 2 eexists. split; [reflexivity|].
    cbn [trace]. rewrite Htr, !modelCalls_app, <- app_assoc. reflexivity.
  - rewrite (analyzeOne_throw _ _ _ _ _ E). do 2 eexists. split; [reflexivity|].
    unfold logFailure. cbn [trace]. rewrite Htr, !modelCalls_app, <- app_assoc.
    reflexivity.
Qed.

Lemma skip_test t :
  negb (truthy t) || negb (truthy (trim t)) = negb (truthy (trim t)).
Proof. destruct t; reflexivity. Qed.

Lemma analyzeLoop_cons jd r rest results (w : World Agent) :
  analyzeLoop runTask jd (r :: rest) results w =
  if nonBlank r then
    match analyzeOne runTask jd r w with
    | (Return (fitScore, riskScore, verdict, report), w') =>
        analyzeLoop runTask jd rest
          (results ++
           [AnalyzeResult.mk (ResumeInput.id r) verdict fitScore riskScore report]) w'
    | (Throw err, w') => (Throw err, w')
    end
  else analyzeLoop runTask jd rest results w.
Proof.
  cbn [analyzeLoop]. rewrite skip_test. unfold nonBlank.
  destruct (truthy (trim (ResumeInput.text r))); cbn [negb]; [|reflexivity].
  unfold bind. destruct (analyzeOne runTask jd r w) as [[[[[f k] v] p]|err] w'];
    reflexivity.
Qed.

(** Entries already pushed stay in front of those pushed later. *)
Lemma analyzeLoop_acc jd rs acc (w : World Agent) :
  analyzeLoop runTask jd rs acc w =
  match analyzeLoop runTask jd rs [] w with
  | (Return res, w') => (Return (acc ++ res), w')
  | (Throw err, w') => (Throw err, w')
  end.
Proof.
  revert acc w; induction rs as [|r rs IH]; intros acc w.
  - cbn. now rewrite app_nil_r.
  - rewrite !analyzeLoop_cons. destruct (nonBlank r); [|apply IH].
    destruct (analyzeOne runTask jd r w) as [[[[[f k] v] p]|err] w']; [|reflexivity].
    rewrite (IH (acc ++ _)), (IH ([] ++ _)).
    destruct (analyzeLoop runTask jd rs [] w') as [[res|err] w'']; [|reflexivity].
    now rewrite <- app_assoc.
Qed.

Lemma analyzeLoop_app jd rs1 rs2 (w w1 : World Agent) res1 :
  analyzeLoop runTask jd rs1 [] w = (Return res1, w1) ->
  analyzeLoop runTask jd (rs1 ++ rs2) [] w =
  match analyzeLoop runTask jd rs2 [] w1 with
  | (Return res2, w2) => (Return (res1 ++ res2), w2)
  | (Throw err, w2) => (Throw err, w2)
  end.
Proof.
  revert w res1; induction rs1 as [|r rs1 IH]; intros w res1 H.
  - cbn in H. injection H as <- <-. cbn [app].
    now destruct (analyzeLoop runTask jd rs2 [] w) as [[res|err] w'].
  - cbn [app]. rewrite analyzeLoop_cons in *. destruct (nonBlank r); [|now apply IH].
    destruct (analyzeOne runTask jd r w) as [[[[[f k] v] p]|err] w']; [|discriminate].
    rewrite analyzeLoop_acc in H. rewrite analyzeLoop_acc.
    destruct (analyzeLoop runTask jd rs1 [] w') as [[res|err] w''] eqn:E; [|discriminate].
    injection H as <- <-. rewrite (IH _ _ E).
    destruct (analyzeLoop runTask jd rs2 [] w'') as [[res2|err] w2]; [|reflexivity].
    now rewrite app_assoc.
Qed.

(** The loop never throws; it pushes one entry for each resume that is
    not blank, in order, and calls the model once for each of them. *)
Lemma analyzeLoop_total jd rs (w : World Agent) :
  exists res w',
    analyzeLoop runTask jd rs [] w = (Return res, w')
    /\ map AnalyzeResult.id res = map ResumeInput.id (filter nonBlank rs)
    /\ modelCalls (trace w') =
       modelCalls (trace w)
       ++ map (fun r => buildPrompt jd (ResumeInput.text r)) (filter nonBlank rs).
Proof.
  revert w; induction rs as [|r rs IH]; intro w.
  - exists [], w. cbn. now rewrite app_nil_r.
  - rewrite analyzeLoop_cons. cbn [filter]. destruct (nonBlank r); [|apply IH].
    destruct (analyzeOne_total jd r w) as ([[[f k] v] p] & w1 & -> & Hc).
    rewrite analyzeLoop_acc.
    destruct (IH w1) as (res & w' & -> & Hid & Hcalls).
    do 2 eexists. split; [reflexivity|]. cbn [app map AnalyzeResult.id]. split.
    + now rewrite Hid.
    + rewrite Hcalls, Hc, <- app_assoc. reflexivity.
Qed.

Lemma analyzeLoop_blank jd rs (w : World Agent) :
  forallb (fun r => negb (nonBlank r)) rs = true ->
  analyzeLoop runTask jd rs [] w = (Return [], w).
Proof.
  induction rs as [|r rs IH]; intro H; [reflexivity|].
  cbn [forallb] in H. apply andb_true_iff in H as [Hr H].
  rewrite analyzeLoop_cons. apply negb_true_iff in Hr. rewrite Hr. auto.
Qed.

Lemma truthy_nonempty s : s <> [] -> truthy s = true.
Proof. destruct s; [congruence|reflexivity]. Qed.

Lemma handler_analyze req b (w : World Agent) :
  isAnalyze req b ->
  handler runTask req w =
  if negb (truthy (jdOf b)) then (Return (json (ErrorData MISSING_JD) 400), w)
  else if (List.length (resumesOf b) =? 0)%nat
  then (Return (json (ErrorData NO_RESUMES) 400), w)
  else
    match analyzeLoop runTask (jdOf b) (resumesOf b) [] w with
    | (Return results, w') => (Return (json (ResultsData results) 200), w')
    | (Throw err, w') =>
        (Return (json (ErrorData INTERNAL_ERROR) 500),
         mkWorld (agent w') (trace w' ++ [ConsoleError handlerErrorMessage err]))
    end.
Proof.
  intros (Hm & Hp & Hb). unfold handler. rewrite Hm, Hp.
  change (jsstring_eqb (js "POST") (js "OPTIONS")) with false.
  change (jsstring_eqb (js "/analyze") (js "/analyze") && jsstring_eqb (js "POST") (js "POST"))
    with true.
  cbv iota. unfold analyze, tryCatch, bind, await. rewrite Hb.
  fold (jdOf b). fold (resumesOf b).
  destruct (negb (truthy (jdOf b))); [reflexivity|].
  destruct (List.length (resumesOf b) =? 0)%nat; [reflexivity|].
  destruct (analyzeLoop runTask (jdOf b) (resumesOf b) [] w) as [[res|err] w'];
    reflexivity.
Qed.

Lemma handler_validated req b (w : World Agent) :
  isAnalyze req b -> validated b ->
  handler runTask req w =
  match analyzeLoop runTask (jdOf b) (resumesOf b) [] w with
  | (Return results, w') => (Return (json (ResultsData results) 200), w')
  | (Throw err, w') =>
      (Return (json (ErrorData INTERNAL_ERROR) 500),
       mkWorld (agent w') (trace w' ++ [ConsoleError handlerErrorMessage err]))
  end.
Proof.
  intros Hreq [Hjd Hrs]. rewrite (handler_analyze req b w Hreq).
  rewrite (truthy_nonempty _ Hjd). cbn [negb].
  destruct (resumesOf b); [congruence|reflexivity].
Qed.

End ServerFacts.

(** ** Claims about the handler *)

Section HandlerClaims.

Variable Agent : Type.
Variable runTask :
  jsstring -> jsstring -> Agent -> (list TaskEvent * option thrown) * Agent.



(** C4 (amended): for every [POST /analyze] request whose body parses, if
    the job description is empty after trimming the response is the 400
    error [Missing 'jd' in request body]; if the job description is not
    blank and the resume list is empty it is the 400 error
    [Provide at least one resume]; in both cases the world is left as it
    was, so no model call is made. *)
Theorem C4_validation_gate (req : Request) (b : RequestBody) (w : World Agent) :
  isAnalyze req b ->
  (jdOf b = [] ->
   handler runTask req w = (Return (json (ErrorData MISSING_JD) 400), w))
  /\ (jdOf b <> [] -> resumesOf b = [] ->
      handler runTask req w = (Return (json (ErrorData NO_RESUMES) 400), w)).
Proof.
  intro Hreq. rewrite (handler_analyze Agent runTask req b w Hreq). split.
  - now intros ->.
  - intros Hjd ->. now rewrite (truthy_nonempty _ Hjd).
Qed.


(** C10: for every [POST /analyze] request with a job description that
    is not blank and a resume list that is not empty but holds only blank
    texts, validation passes, the world is left as it was (no model
    call), and the response is 200 with the empty result list. *)
Theorem C10_all_blank_resumes (req : Request) (b : RequestBody) (w : World Agent) :
  isAnalyze req b -> validated b ->
  forallb (fun r => negb (nonBlank r)) (resumesOf b) = true ->
  handler runTask req w = (Return (json (ResultsData []) 200), w).
Proof.
  intros Hreq Hval Hblank.
  rewrite (handler_validated Agent runTask req b w Hreq Hval).
  now rewrite (analyzeLoop_blank Agent runTask _ _ w Hblank).
Qed.

End HandlerClaims.

(** ** The claims at work on the examples *)



(** C4, as stated, fails: with a blank job description and an empty
    resume list the response is the one about the job description, not
    the one about the resumes. *)
Lemma C4_validation_counterexample :
  let w := mkWorld ([] : Script) [] in
  handler scripted (post (mkBody (Some (js "  ")) (Some []))) w
  = (Return (json (ErrorData MISSING_JD) 400), w)
  /\ json (ErrorData MISSING_JD) 400 <> json (ErrorData NO_RESUMES) 400.
Proof. split; vm_compute; [reflexivity|discriminate]. Qed.

Lemma C4_validation_witness :
  let w := mkWorld [goodReply] [] in
  handler scripted (post (mkBody (Some (js "  ")) (Some [candidateA]))) w
  = (Return (json (ErrorData MISSING_JD) 400), w)
  /\ handler scripted (post (mkBody (Some backendJD) (Some []))) w
     = (Return (json (ErrorData NO_RESUMES) 400), w).
Proof.
  intro w. split.
  - apply (C4_validation_gate Script scripted _
             (mkBody (Some (js "  ")) (Some [candidateA])) w).
    + repeat split.
    + reflexivity.
  - apply (C4_validation_gate Script scripted _
             (mkBody (Some backendJD) (Some [])) w).
    + repeat split.
    + vm_compute. discriminate.
    + reflexivity.
Defined.



Lemma C10_all_blank_witness :
  let w := mkWorld [goodReply] [] in
  handler scripted
    (post (mkBody (Some backendJD) (Some [blankCandidate; blankCandidate]))) w
  = (Return (json (ResultsData []) 200), w).
Proof.
  intro w.
  apply (C10_all_blank_resumes Script scripted _
           (mkBody (Some backendJD) (Some [blankCandidate; blankCandidate])) w).
  - repeat split.
  - split; vm_compute; discriminate.
  - reflexivity.
Defined.

(** * More properties of the code *)

(** ** Trimming *)

Section TrimFacts.

Lemma dropWhile_idem p s : dropWhile p (dropWhile p s) = dropWhile p s.
Proof.
  induction s as [|c s IH]; simpl; [reflexivity|].
  destruct (p c) eqn:E; [assumption|]. simpl. now rewrite E.
Qed.

Lemma trimEnd_idem s : trimEnd (trimEnd s) = trimEnd s.
Proof. unfold trimEnd. now rewrite rev_involutive, dropWhile_idem. Qed.

Lemma dropWhile_suffix p s : exists a, s = a ++ dropWhile p s.
Proof. destruct (dropWhile_split p s) as (a & H & _). eauto. Qed.

(** [trimEnd] keeps a prefix. *)
Lemma trimEnd_prefix s : exists t, s = trimEnd s ++ t.
Proof.
  unfold trimEnd.
  destruct (dropWhile_suffix isStrWhiteSpaceChar (rev s)) as [a Ha].
  exists (rev a). rewrite <- rev_app_distr, <- Ha. now rewrite rev_involutive.
Qed.

Lemma trimStart_trimEnd s : trimStart (trimEnd (trimStart s)) = trimEnd (trimStart s).
Proof.
  unfold trimStart.
  destruct (trimEnd_prefix (dropWhile isStrWhiteSpaceChar s)) as [t Ht].
  destruct (trimEnd (dropWhile isStrWhiteSpaceChar s)) as [|c l] eqn:E; [reflexivity|].
  simpl in Ht. simpl. now rewrite (dropWhile_head _ _ _ _ Ht).
Qed.

(** Trimming twice is trimming once. *)
Lemma trim_idem s : trim (trim s) = trim s.
Proof.
  unfold trim. rewrite trimStart_trimEnd. apply trimEnd_idem.
Qed.

Lemma forallb_rev (q : cu -> bool) s : forallb q s = true -> forallb q (rev s) = true.
Proof.
  rewrite !forallb_forall. intros H x Hx. apply H. now apply in_rev.
Qed.

(** Trimming keeps what holds of every code unit. *)
Lemma forallb_trim (q : cu -> bool) s : forallb q s = true -> forallb q (trim s) = true.
Proof.
  intro H. unfold trim, trimEnd, trimStart.
  apply forallb_rev, forallb_dropWhile, forallb_rev, forallb_dropWhile, H.
Qed.

End TrimFacts.

(** ** What the parser always returns *)

Section ParserInvariants.

Lemma verdict_group_line raw m :
  String_match raw VERDICT_RE = Some m ->
  exists g, group1 m = Some g /\ singleLine g = true.
Proof.
  intro H. apply execFrom_some in H as (t & n & H).
  unfold matchAt in H. cbn [pattern ignoreCase VERDICT_RE] in H.
  change (lit "VERDICT" ++ [star ClassS; Atom (Lit 58%N); star ClassS; plusGroup Dot])
    with ((lit "VERDICT" ++ [star ClassS; Atom (Lit 58%N); star ClassS])
          ++ [plusGroup Dot]) in H.
  apply group_takes_part in H as (ds & -> & _ & Hd). eauto.
Qed.

(** For every raw text, the verdict is one line, without white space at
    either end. *)
Theorem verdict_is_a_trimmed_line (raw : jsstring) :
  singleLine (verdict (parseModelOutput raw)) = true
  /\ trim (verdict (parseModelOutput raw)) = verdict (parseModelOutput raw).
Proof.
  rewrite verdict_eq.
  destruct (String_match raw VERDICT_RE) as [m|] eqn:E.
  - destruct (verdict_group_line raw m E) as (g & Hg & Hline).
    unfold group1_text. rewrite Hg. split.
    + now apply forallb_trim.
    + apply trim_idem.
  - split; reflexivity.
Qed.

(** The report is the raw text itself when no [REPORT] marker occurs, and
    a text without white space at either end when one does. *)
Theorem report_raw_or_trimmed (raw : jsstring) :
  (occurs REPORT_RE raw = false -> report (parseModelOutput raw) = raw)
  /\ (occurs REPORT_RE raw = true ->
      trim (report (parseModelOutput raw)) = report (parseModelOutput raw)).
Proof.
  rewrite report_eq. unfold occurs.
  destruct (negb (String_search raw REPORT_RE =? -1)%Z); split; intro H;
    try discriminate; try reflexivity.
  cbv zeta.
  destruct (negb (indexOf (slice raw (String_search raw REPORT_RE)) 10%N =? -1)%Z);
    apply trim_idem.
Qed.

Lemma report_raw_or_trimmed_witness :
  report (parseModelOutput (js "  no marker here ")) = js "  no marker here "
  /\ trim (report (parseModelOutput (js "Report :  inline  ")))
     = report (parseModelOutput (js "Report :  inline  ")).
Proof.
  split.
  - apply (proj1 (report_raw_or_trimmed (js "  no marker here "))). reflexivity.
  - apply (proj2 (report_raw_or_trimmed (js "Report :  inline  "))). reflexivity.
Defined.

End ParserInvariants.

(** ** Text before the first tag *)

Section LeadingProse.

Ltac peel :=
  rewrite matchTerms_atom;
  match goal with
  | |- (if inSet true ?A ?c then _ else _) = None =>
      first [ change (inSet true A c) with false; reflexivity
            | destruct (inSet true A c); [apply shift_none|reflexivity] ]
  end.

Ltac peel_both H :=
  rewrite matchTerms_atom in H; rewrite matchTerms_atom;
  match goal with
  | |- (if inSet true ?A ?c then _ else _) = None =>
      destruct (inSet true A c); [apply shift_none_inv in H; apply shift_none|reflexivity]
  end.

Ltac literal name :=
  let p := eval vm_compute in (lit name) in
  change (lit name) with p in *.

(** [u] is not empty and holds fewer code units than the name: the
    name cannot be completed by a text that begins with F. *)
Ltac short_or_long u H n :=
  lazymatch n with
  | O => cbn [app]; repeat peel_both H; simpl in H; discriminate H
  | S ?n' =>
      let c := fresh "c" in
      destruct u as [|c u];
      [cbn [app]; repeat peel | short_or_long u H n']
  end.

Ltac straddle name n :=
  let H := fresh "H" in
  let Hne := fresh "Hne" in
  let Hc := fresh "Hc" in
  intros H Hne Hc;
  unfold matchAt, nameRE in *; cbn [pattern ignoreCase] in *; literal name;
  cbn [app] in *;
  match goal with
  | |- matchTerms _ _ (?u ++ _) _ = None =>
      let c := fresh "c" in
      destruct u as [|c u]; [congruence|];
      destruct Hc as [-> | ->]; short_or_long u H n
  end.

Lemma FIT_SCORE_straddle u c t :
  matchAt (nameRE "FIT_SCORE") u = None -> u <> [] -> c = 70%N \/ c = 102%N ->
  matchAt FIT_SCORE_RE (u ++ c :: t) = None.
Proof. unfold FIT_SCORE_RE. straddle "FIT_SCORE"%string 8. Qed.

Lemma RISK_SCORE_straddle u c t :
  matchAt (nameRE "RISK_SCORE") u = None -> u <> [] -> c = 70%N \/ c = 102%N ->
  matchAt RISK_SCORE_RE (u ++ c :: t) = None.
Proof. unfold RISK_SCORE_RE. straddle "RISK_SCORE"%string 9. Qed.

Lemma VERDICT_straddle u c t :
  matchAt (nameRE "VERDICT") u = None -> u <> [] -> c = 70%N \/ c = 102%N ->
  matchAt VERDICT_RE (u ++ c :: t) = None.
Proof. unfold VERDICT_RE. straddle "VERDICT"%string 6. Qed.

Lemma REPORT_name_straddle u c t :
  matchAt (nameRE "REPORT") u = None -> u <> [] -> c = 70%N \/ c = 102%N ->
  matchAt REPORT_RE (u ++ c :: t) = None.
Proof. unfold REPORT_RE. straddle "REPORT"%string 5. Qed.

End LeadingProse.

Section ProseIgnored.

Lemma execFrom_index r s i :
  execFrom r s i =
  match execFrom r s 0 with
  | Some m => Some (mkMatch (i + index m) (group1 m))
  | None => None
  end.
Proof.
  revert i; induction s as [|c s IH]; intro i; simpl.
  - destruct (matchAt r []) as [[g n]|]; [|reflexivity].
    cbn [index group1]. now rewrite Nat.add_0_r.
  - destruct (matchAt r (c :: s)) as [[g n]|].
    + cbn [index group1]. now rewrite Nat.add_0_r.
    + rewrite (IH (S i)), (IH 1).
      destruct (execFrom r s 0) as [m|]; [|reflexivity].
      cbn [index group1]. f_equal. f_equal. lia.
Qed.

Lemma skipn_nonempty (A : Type) k (l : list A) :
  k < List.length l -> skipn k l <> [].
Proof.
  revert k; induction l as [|x l IH]; intros k Hk; simpl in Hk; [lia|].
  destruct k; simpl; [discriminate|]. apply IH. lia.
Qed.

Lemma noName_NoMatchIn name r pre c t :
  occurs (nameRE name) pre = false ->
  (forall u, matchAt (nameRE name) u = None -> u <> [] ->
             matchAt r (u ++ c :: t) = None) ->
  NoMatchIn r pre (c :: t).
Proof.
  intros Hn Hs k Hk. apply not_occurs in Hn.
  rewrite skipn_app. replace (k - List.length pre) with 0 by lia. cbn [skipn].
  apply Hs.
  - apply (execFrom_none _ _ _ Hn).
  - now apply skipn_nonempty.
Qed.

Lemma noTagNames_inv pre :
  noTagNames pre = true ->
  occurs (nameRE "FIT_SCORE") pre = false
  /\ occurs (nameRE "RISK_SCORE") pre = false
  /\ occurs (nameRE "VERDICT") pre = false
  /\ occurs (nameRE "REPORT") pre = false.
Proof.
  unfold noTagNames. cbn [forallb TAG_NAMES]. intro H.
  repeat (apply andb_true_iff in H as [?H H]).
  repeat match goal with
         | H : negb _ = true |- _ => apply negb_true_iff in H
         end.
  auto.
Qed.

Lemma startsWithF_inv s :
  startsWithF s = true -> exists c t, s = c :: t /\ (c = 70%N \/ c = 102%N).
Proof.
  destruct s as [|c t]; [discriminate|]. simpl. intro H.
  exists c, t. split; [reflexivity|].
  apply orb_true_iff in H as [H|H]; apply N.eqb_eq in H; auto.
Qed.

Lemma String_match_past r pre s :
  NoMatchIn r pre s ->
  String_match (pre ++ s) r =
  match String_match s r with
  | Some m => Some (mkMatch (List.length pre + index m) (group1 m))
  | None => None
  end.
Proof.
  intro H. unfold String_match. rewrite (execFrom_past _ _ _ _ H).
  rewrite Nat.add_0_r. apply execFrom_index.
Qed.

Lemma slice_past pre s i :
  slice (pre ++ s) (Z.of_nat (List.length pre + i)) = slice s (Z.of_nat i).
Proof.
  unfold slice. rewrite length_app.
  destruct (Z.ltb_spec (Z.of_nat (List.length pre + i)) 0) as [H|_]; [lia|].
  destruct (Z.ltb_spec (Z.of_nat i) 0) as [H|_]; [lia|].
  destruct (Nat.le_gt_cases i (List.length s)) as [Hi|Hi].
  - rewrite !Z.min_l by lia. rewrite !Nat2Z.id.
    rewrite skipn_app. rewrite skipn_all2 by lia.
    replace (List.length pre + i - List.length pre) with i by lia. reflexivity.
  - rewrite !Z.min_r by lia. rewrite !Nat2Z.id.
    rewrite (skipn_all2 (pre ++ s)) by (rewrite length_app; lia).
    now rewrite skipn_all2 by lia.
Qed.

(** Prose that names no tag, put before a text that begins with F (as the
    reply format does), changes no score and no verdict; and when the
    text has a [REPORT] marker it changes nothing at all. *)
Theorem leading_prose_is_ignored (pre s : jsstring) :
  noTagNames pre = true -> startsWithF s = true ->
  fitScore (parseModelOutput (pre ++ s)) = fitScore (parseModelOutput s)
  /\ riskScore (parseModelOutput (pre ++ s)) = riskScore (parseModelOutput s)
  /\ verdict (parseModelOutput (pre ++ s)) = verdict (parseModelOutput s)
  /\ (occurs REPORT_RE s = true -> parseModelOutput (pre ++ s) = parseModelOutput s).
Proof.
  intros Hpre Hs.
  destruct (noTagNames_inv pre Hpre) as (Hf & Hr & Hv & Hp).
  destruct (startsWithF_inv s Hs) as (c & t & -> & Hc).
  assert (Nf : NoMatchIn FIT_SCORE_RE pre (c :: t)).
  { apply (noName_NoMatchIn "FIT_SCORE"); [assumption|].
    intros u Hu Hne. now apply FIT_SCORE_straddle. }
  assert (Nr : NoMatchIn RISK_SCORE_RE pre (c :: t)).
  { apply (noName_NoMatchIn "RISK_SCORE"); [assumption|].
    intros u Hu Hne. now apply RISK_SCORE_straddle. }
  assert (Nv : NoMatchIn VERDICT_RE pre (c :: t)).
  { apply (noName_NoMatchIn "VERDICT"); [assumption|].
    intros u Hu Hne. now apply VERDICT_straddle. }
  assert (Np : NoMatchIn REPORT_RE pre (c :: t)).
  { apply (noName_NoMatchIn "REPORT"); [assumption|].
    intros u Hu Hne. now apply REPORT_name_straddle. }
  assert (Ef : fitScore (parseModelOutput (pre ++ c :: t))
               = fitScore (parseModelOutput (c :: t))).
  { rewrite !fitScore_eq, (String_match_past _ _ _ Nf).
    now destruct (String_match (c :: t) FIT_SCORE_RE). }
  assert (Er : riskScore (parseModelOutput (pre ++ c :: t))
               = riskScore (parseModelOutput (c :: t))).
  { rewrite !riskScore_eq, (String_match_past _ _ _ Nr).
    now destruct (String_match (c :: t) RISK_SCORE_RE). }
  assert (Ev : verdict (parseModelOutput (pre ++ c :: t))
               = verdict (parseModelOutput (c :: t))).
  { rewrite !verdict_eq, (String_match_past _ _ _ Nv).
    now destruct (String_match (c :: t) VERDICT_RE). }
  repeat (split; [assumption|]).
  intro Ho.
  assert (Ep : report (parseModelOutput (pre ++ c :: t))
               = report (parseModelOutput (c :: t))).
  { rewrite !report_eq. unfold occurs in Ho.
    unfold String_search in *.
    rewrite (execFrom_past _ _ _ 0 Np), Nat.add_0_r, execFrom_index.
    destruct (execFrom REPORT_RE (c :: t) 0) as [m|]; [|discriminate Ho].
    cbn [index].
    destruct (Z.eqb_spec (Z.of_nat (List.length pre + index m)) (-1)) as [H|_]; [lia|].
    destruct (Z.eqb_spec (Z.of_nat (index m)) (-1)) as [H|_]; [lia|].
    cbn [negb]. cbv zeta. now rewrite slice_past. }
  change (parseModelOutput (pre ++ c :: t)) with
    (mkParsed (fitScore (parseModelOutput (pre ++ c :: t)))
              (riskScore (parseModelOutput (pre ++ c :: t)))
              (verdict (parseModelOutput (pre ++ c :: t)))
              (report (parseModelOutput (pre ++ c :: t)))).
  rewrite Ef, Er, Ev, Ep. reflexivity.
Qed.

Lemma leading_prose_witness :
  let pre := js "Sure! Here is my assessment of the candidate:" ++ LF ++ LF in
  let s := template 9 2 (js "Strong match.") (js "Alignment: ...") in
  parseModelOutput (pre ++ s) = parseModelOutput s.
Proof.
  intros pre s.
  apply (leading_prose_is_ignored pre s); reflexivity.
Defined.

End ProseIgnored.

(** ** The marker's own line *)

Section MarkerLine.

Lemma indexOf_from_app a b i :
  noLineFeed a = true ->
  indexOf_from (a ++ 10%N :: b) 10%N i = (i + Z.of_nat (List.length a))%Z.
Proof.
  revert i; induction a as [|x a IH]; intros i H.
  - simpl. lia.
  - cbn [noLineFeed forallb] in H. apply andb_true_iff in H as [Hx H].
    apply negb_true_iff in Hx. cbn [app indexOf_from]. rewrite Hx.
    rewrite IH by exact H. cbn [List.length]. lia.
Qed.

Lemma lit_not_LF c x :
  inSet true (Lit c) x = true -> (c =? 10)%N = false -> (x =? 10)%N = false.
Proof.
  unfold inSet, Canonicalize. intros H Hc.
  apply N.eqb_eq in H. apply N.eqb_neq in Hc. apply N.eqb_neq. intros ->.
  change (true && (97 <=? 10)%N && (10 <=? 122)%N) with false in H. cbv iota in H.
  destruct (true && (97 <=? c)%N && (c <=? 122)%N) eqn:E; [|congruence].
  apply andb_true_iff in E as [E _]. apply andb_true_iff in E as [_ E].
  apply N.leb_le in E. lia.
Qed.

Lemma litMatches_noLineFeed L tag :
  litMatches true L tag = true -> noLineFeed L = true -> noLineFeed tag = true.
Proof.
  revert tag; induction L as [|c L IH]; intros [|x tag] H HL;
    cbn [litMatches] in H; try discriminate; [reflexivity|].
  apply andb_true_iff in H as [Hx H].
  cbn [noLineFeed forallb] in *. apply andb_true_iff in HL as [Hc HL].
  apply negb_true_iff in Hc.
  rewrite (lit_not_LF c x Hx Hc). cbn [negb andb]. now apply IH.
Qed.

Lemma noLineFeed_app a b : noLineFeed (a ++ b) = noLineFeed a && noLineFeed b.
Proof. apply forallb_app. Qed.

Lemma REPORT_match tag ws t :
  litMatches true (js "REPORT") tag = true ->
  forallb isStrWhiteSpaceChar ws = true ->
  exists n, matchAt REPORT_RE (tag ++ ws ++ 58%N :: t) = Some (None, n).
Proof.
  intros Htag Hws. unfold matchAt, REPORT_RE, lit. cbn [pattern ignoreCase].
  rewrite lit_match by assumption.
  rewrite star_commit by (intros; now apply colon_after_ws).
  rewrite (run_app true ClassS ws (58%N :: t)), skipn_app_length;
    [|assumption|reflexivity].
  rewrite matchTerms_atom. change (inSet true (Lit 58%N) 58%N) with true.
  cbn. eauto.
Qed.

(** When a line feed follows the marker, the report is the text after
    that line feed, trimmed: what stands on the marker's own line after
    the colon is dropped. *)
Theorem report_drops_marker_line (pre tag ws line rest : jsstring) :
  noMatchBefore REPORT_RE (pre ++ tag ++ ws ++ 58%N :: line ++ LF ++ rest)
    (List.length pre) = true ->
  litMatches true (js "REPORT") tag = true ->
  forallb isStrWhiteSpaceChar ws = true -> noLineFeed ws = true ->
  noLineFeed line = true ->
  report (parseModelOutput (pre ++ tag ++ ws ++ 58%N :: line ++ LF ++ rest))
  = trim rest.
Proof.
  intros Hpre Htag Hws Hws' Hline.
  destruct (REPORT_match tag ws (line ++ LF ++ rest) Htag Hws) as [n Hn].
  rewrite report_eq.
  assert (Hs : String_search (pre ++ tag ++ ws ++ 58%N :: line ++ LF ++ rest) REPORT_RE
               = Z.of_nat (List.length pre)).
  { unfold String_search.
    rewrite execFrom_skip by (apply noMatchBefore_spec; exact Hpre).
    rewrite (execFrom_hit _ _ _ _ _ Hn). cbn [index]. f_equal. lia. }
  rewrite Hs.
  destruct (Z.eqb_spec (Z.of_nat (List.length pre)) (-1)) as [H|_]; [lia|].
  cbn [negb]. cbv zeta. rewrite slice_app.
  assert (Ha : tag ++ ws ++ 58%N :: line ++ LF ++ rest
               = (tag ++ ws ++ 58%N :: line) ++ 10%N :: rest).
  { rewrite <- !app_assoc. cbn [app]. reflexivity. }
  assert (Hlf : noLineFeed (tag ++ ws ++ 58%N :: line) = true).
  { rewrite !noLineFeed_app.
    change (noLineFeed (58%N :: line)) with (noLineFeed line).
    rewrite (litMatches_noLineFeed _ _ Htag eq_refl), Hws', Hline. reflexivity. }
  rewrite Ha. unfold indexOf. rewrite (indexOf_from_app _ _ _ Hlf).
  destruct (Z.eqb_spec (0 + Z.of_nat (List.length (tag ++ ws ++ 58%N :: line))) (-1))
    as [H|_]; [lia|].
  cbn [negb]. f_equal.
  replace ((tag ++ ws ++ 58%N :: line) ++ 10%N :: rest)
    with (((tag ++ ws ++ 58%N :: line) ++ [10%N]) ++ rest)
    by (rewrite <- app_assoc; reflexivity).
  replace (0 + Z.of_nat (List.length (tag ++ ws ++ 58%N :: line)) + 1)%Z
    with (Z.of_nat (List.length ((tag ++ ws ++ 58%N :: line) ++ [10%N])))
    by (rewrite (length_app (tag ++ ws ++ 58%N :: line)); simpl List.length; lia).
  apply slice_app.
Qed.

Lemma report_drops_marker_line_witness :
  report (parseModelOutput
            (js "Summary first. " ++ js "Report" ++ js " " ++ 58%N
               :: js " see below" ++ LF ++ js "  Alignment: good  "))
  = js "Alignment: good".
Proof.
  exact (report_drops_marker_line (js "Summary first. ") (js "Report") (js " ")
           (js " see below") (js "  Alignment: good  ")
           eq_refl eq_refl eq_refl eq_refl eq_refl).
Defined.

End MarkerLine.

(** ** [getRequiredEnv], [buildPrompt], [runZypherTask] *)

Section HelperFacts.

(** A required variable is returned only when it is set to a text that
    is not empty; an unset variable and an empty one both raise the error
    that names the variable. *)
Theorem getRequiredEnv_nonempty_or_throws (env : Env) (name : jsstring) :
  (forall v, getRequiredEnv env name = Return v <-> (env name = Some v /\ v <> []))
  /\ (env name = None \/ env name = Some [] ->
      getRequiredEnv env name
      = Throw (ErrorInstance (js "Environment variable " ++ name ++ js " is not set"))).
Proof.
  unfold getRequiredEnv. split.
  - intro v. destruct (env name) as [[|c s]|]; cbn; split.
    + discriminate.
    + intros [[= <-] H]. now elim H.
    + intros [= <-]. split; [reflexivity|discriminate].
    + now intros [[= <-] _].
    + discriminate.
    + now intros [H _].
  - intros [-> | ->]; reflexivity.
Qed.

(** With one argument fixed, the prompt determines the other. *)
Theorem buildPrompt_injective_in_each (jd jd' r r' : jsstring) :
  (buildPrompt jd r = buildPrompt jd r' -> r = r')
  /\ (buildPrompt jd r = buildPrompt jd' r -> jd = jd').
Proof.
  unfold buildPrompt. split; intro H.
  - apply app_inv_head in H. apply app_inv_head in H. apply app_inv_head in H.
    now apply app_inv_tail in H.
  - apply app_inv_head in H.
    rewrite !(app_assoc _ PROMPT_BETWEEN), !(app_assoc _ r) in H.
    apply app_inv_tail in H. apply app_inv_tail in H. now apply app_inv_tail in H.
Qed.

(** Nothing is escaped: a job description that contains the text put
    between the two fields gives the prompt of a different pair of
    arguments. *)
Theorem buildPrompt_does_not_escape (a b c : jsstring) :
  buildPrompt (a ++ PROMPT_BETWEEN ++ b) c = buildPrompt a (b ++ PROMPT_BETWEEN ++ c)
  /\ a ++ PROMPT_BETWEEN ++ b <> a.
Proof.
  split.
  - unfold buildPrompt. rewrite <- !app_assoc. reflexivity.
  - intro H. apply (f_equal (@List.length cu)) in H.
    rewrite !length_app in H.
    assert (0 < List.length PROMPT_BETWEEN) by (vm_compute; lia). lia.
Qed.

Variable Agent : Type.
Variable runTask :
  jsstring -> jsstring -> Agent -> (list TaskEvent * option thrown) * Agent.

Lemma fold_accumulate events acc :
  fold_left accumulate events acc = acc ++ List.concat (map eventText events).
Proof.
  revert acc; induction events as [|e events IH]; intro acc; cbn [fold_left map List.concat].
  - now rewrite app_nil_r.
  - rewrite IH, app_assoc. f_equal.
    destruct e as [d|c|]; cbn [accumulate eventText].
    + destruct d; cbn [truthy]; [now rewrite app_nil_r|reflexivity].
    + destruct c; cbn [truthy]; [now rewrite app_nil_r|reflexivity].
    + now rewrite app_nil_r.
Qed.

(** One task: the reply is the texts of the [text-delta] and [text]
    events, in order, joined and trimmed; events of other kinds add
    nothing; a stream that ends in an error throws it and keeps no partial
    text; either way the call is recorded once. A reply, when there is
    one, has no white space at either end. *)
Theorem runZypherTask_joins_and_trims
    (prompt : jsstring) (w : World Agent)
    (events : list TaskEvent) (failure : option thrown) (a' : Agent) :
  runTask prompt MODEL_NAME (agent w) = ((events, failure), a') ->
  runZypherTask runTask prompt w
  = (match failure with
     | Some err => Throw err
     | None => Return (trim (List.concat (map eventText events)))
     end,
     mkWorld a' (trace w ++ [ModelCall prompt MODEL_NAME]))
  /\ (forall s w', runZypherTask runTask prompt w = (Return s, w') -> trim s = s).
Proof.
  intro H. unfold runZypherTask. rewrite H.
  rewrite fold_accumulate. cbn [app]. split.
  - now destruct failure.
  - intros s w'. destruct failure; [discriminate|].
    intros [= <- _]. apply trim_idem.
Qed.

End HelperFacts.

Lemma runZypherTask_joins_witness :
  runZypherTask scripted (js "p") (mkWorld [goodReply] [])
  = (Return (template 9 2 (js "Strong match.") (js "Alignment: ...")),
     mkWorld [] [ModelCall (js "p") MODEL_NAME]).
Proof.
  exact (proj1 (runZypherTask_joins_and_trims Script scripted (js "p")
                  (mkWorld [goodReply] []) (fst goodReply) None [] eq_refl)).
Defined.

(** ** More of the handler *)

Section HandlerFacts.

Variable Agent : Type.
Variable runTask :
  jsstring -> jsstring -> Agent -> (list TaskEvent * option thrown) * Agent.

(** For every request that passes validation, when the model call for a
    resume [r] returns the reply [raw], the entry pushed for [r] holds the
    four fields parsed from [raw] under the id of [r]; it stands after the
    entries of the earlier resumes, and the later resumes are processed
    from the state the call left, with the reply logged. *)
Theorem success_entry_is_parsed_reply
    (req : Request) (b : RequestBody) (w w1 w2 : World Agent)
    (before after : list ResumeInput.t) (r : ResumeInput.t)
    (raw : jsstring) (res1 : list AnalyzeResult.t) :
  isAnalyze req b -> validated b ->
  resumesOf b = before ++ r :: after ->
  nonBlank r = true ->
  analyzeLoop runTask (jdOf b) before [] w = (Return res1, w1) ->
  runZypherTask runTask (buildPrompt (jdOf b) (ResumeInput.text r)) w1
    = (Return raw, w2) ->
  exists res3 w3,
    analyzeLoop runTask (jdOf b) after [] (logReply r raw w2) = (Return res3, w3)
    /\ handler runTask req w
       = (Return (json (ResultsData (res1 ++ parsedEntry r raw :: res3)) 200), w3).
Proof.
  intros Hreq Hval Hrs Hr Hbefore Hcall.
  destruct (analyzeLoop_total Agent runTask (jdOf b) after (logReply r raw w2))
    as (res3 & w3 & Hafter & _ & _).
  exists res3, w3. split; [exact Hafter|].
  rewrite (handler_validated Agent runTask req b w Hreq Hval), Hrs.
  rewrite (analyzeLoop_app Agent runTask _ _ _ _ _ _ Hbefore).
  rewrite analyzeLoop_cons, Hr, (analyzeOne_return Agent runTask _ _ _ _ _ Hcall).
  fold (logReply r raw w2).
  rewrite analyzeLoop_acc, Hafter. reflexivity.
Qed.

(** The status of the response is decided by the request alone: 204 for
    OPTIONS, 404 for anything that is not POST /analyze, 500 when the body
    does not parse, 400 when validation fails, 200 otherwise, whatever
    the model does. Unless the status is 200, the agent is not touched and
    no model call is made; and a 500 carries the fixed message only. *)
Theorem status_is_decided_by_request (req : Request) (w : World Agent) :
  exists resp w',
    handler runTask req w = (Return resp, w')
    /\ status resp = expectedStatus req
    /\ (status resp <> 200%N ->
        agent w' = agent w /\ modelCalls (trace w') = modelCalls (trace w))
    /\ (status resp = 500%N ->
        body resp = JSON_stringify (ErrorData INTERNAL_ERROR)).
Proof.
  unfold handler, expectedStatus, isOPTIONS, isPOSTAnalyze.
  destruct (jsstring_eqb (method req) (js "OPTIONS")).
  { do 2 eexists. split; [reflexivity|]. cbn. repeat split; discriminate. }
  destruct (jsstring_eqb (pathname req) (js "/analyze")
            && jsstring_eqb (method req) (js "POST")).
  2:{ do 2 eexists. split; [reflexivity|]. cbn. repeat split; discriminate. }
  unfold analyze, tryCatch, bind, await.
  destruct (req_json req) as [b|err0].
  2:{ do 2 eexists. split; [reflexivity|]. cbn. repeat split.
      rewrite modelCalls_app. cbn. now rewrite app_nil_r. }
  fold (jdOf b) (resumesOf b).
  destruct (jdOf b) as [|c j] eqn:Ej.
  { do 2 eexists. split; [reflexivity|]. cbn. repeat split; discriminate. }
  cbn [truthy negb].
  destruct (resumesOf b) as [|r rs] eqn:Er.
  { do 2 eexists. split; [reflexivity|]. cbn. repeat split; discriminate. }
  cbn [List.length Nat.eqb].
  destruct (analyzeLoop_total Agent runTask (c :: j) (r :: rs) w)
    as (res & w' & -> & _ & _).
  do 2 eexists. split; [reflexivity|]. cbn. repeat split; congruence.
Qed.

Lemma analyzeOne_trace jd r (w : World Agent) :
  exists l w' e,
    analyzeOne runTask jd r w = (Return l, w')
    /\ isConsole e = true
    /\ trace w' =
       trace w ++ [ModelCall (buildPrompt jd (ResumeInput.text r)) MODEL_NAME; e].
Proof.
  destruct (runZypherTask runTask (buildPrompt jd (ResumeInput.text r)) w)
    as [[raw|err] w1] eqn:E;
    pose proof (runZypherTask_trace Agent runTask _ _ _ _ E) as Htr.
  - rewrite (analyzeOne_return Agent runTask _ _ _ _ _ E). do 3 eexists.
    split; [reflexivity|]. split; [|cbn [trace]; rewrite Htr, <- app_assoc; reflexivity].
    reflexivity.
  - rewrite (analyzeOne_throw Agent runTask _ _ _ _ _ E). do 3 eexists.
    split; [reflexivity|]. unfold logFailure. cbn [trace].
    split; [|rewrite Htr, <- app_assoc; reflexivity]. reflexivity.
Qed.

Lemma analyzeLoop_trace jd rs (w : World Agent) :
  exists res w' logs,
    analyzeLoop runTask jd rs [] w = (Return res, w')
    /\ List.length logs = List.length (filter nonBlank rs)
    /\ forallb isConsole logs = true
    /\ trace w' =
       trace w
       ++ flat_map (fun re : ResumeInput.t * Effect =>
                      [ModelCall (buildPrompt jd (ResumeInput.text (fst re))) MODEL_NAME;
                       snd re])
                   (combine (filter nonBlank rs) logs).
Proof.
  revert w; induction rs as [|r rs IH]; intro w.
  - exists [], w, []. cbn. now rewrite app_nil_r.
  - rewrite analyzeLoop_cons. cbn [filter]. destruct (nonBlank r); [|apply IH].
    destruct (analyzeOne_trace jd r w) as ([[[f k] v] p] & w1 & e & -> & He & Htr).
    rewrite analyzeLoop_acc.
    destruct (IH w1) as (res & w' & logs & -> & Hlen & Hall & Htr').
    exists ([] ++ AnalyzeResult.mk (ResumeInput.id r) v f k p :: res), w', (e :: logs).
    split; [reflexivity|]. cbn [List.length forallb combine flat_map fst snd].
    split; [now rewrite Hlen|]. split; [now rewrite He|].
    rewrite Htr', Htr, <- app_assoc. reflexivity.
Qed.

(** For every request that passes validation, what the handler does to
    the outside world is, for each resume that is not blank and in input
    order, one model call with the prompt of that resume followed at once
    by one console entry: no call starts before the one before it has
    been logged, and nothing else is done. *)
Theorem calls_are_sequential_and_logged
    (req : Request) (b : RequestBody) (w : World Agent) :
  isAnalyze req b -> validated b ->
  exists resp w' logs,
    handler runTask req w = (Return resp, w')
    /\ List.length logs = List.length (filter nonBlank (resumesOf b))
    /\ forallb isConsole logs = true
    /\ trace w' =
       trace w
       ++ flat_map (fun re : ResumeInput.t * Effect =>
                      [ModelCall (buildPrompt (jdOf b) (ResumeInput.text (fst re)))
                         MODEL_NAME;
                       snd re])
                   (combine (filter nonBlank (resumesOf b)) logs).
Proof.
  intros Hreq Hval.
  destruct (analyzeLoop_trace (jdOf b) (resumesOf b) w)
    as (res & w' & logs & Hloop & Hlen & Hall & Htr).
  exists (json (ResultsData res) 200), w', logs.
  rewrite (handler_validated Agent runTask req b w Hreq Hval), Hloop. auto.
Qed.

(** A batch is its two halves in turn: the response to [rs1 ++ rs2] is
    the results for [rs1] followed by the results for [rs2] obtained from
    the state the first half left. *)
Theorem batch_is_processed_in_sequence
    (jobText : jsstring) (rs1 rs2 : list ResumeInput.t) (w w1 w2 : World Agent)
    (res1 res2 : list AnalyzeResult.t) :
  trim jobText <> [] -> rs1 <> [] -> rs2 <> [] ->
  handler runTask (post (mkBody (Some jobText) (Some rs1))) w
    = (Return (json (ResultsData res1) 200), w1) ->
  handler runTask (post (mkBody (Some jobText) (Some rs2))) w1
    = (Return (json (ResultsData res2) 200), w2) ->
  handler runTask (post (mkBody (Some jobText) (Some (rs1 ++ rs2)))) w
    = (Return (json (ResultsData (res1 ++ res2)) 200), w2).
Proof.
  intros Hjd H1 H2 Hh1 Hh2.
  assert (Hreq : forall rs, isAnalyze (post (mkBody (Some jobText) (Some rs)))
                                      (mkBody (Some jobText) (Some rs)))
    by (intro rs; repeat split).
  assert (Hval : forall rs, rs <> [] -> validated (mkBody (Some jobText) (Some rs)))
    by (intros rs Hrs; split; assumption).
  rewrite (handler_validated Agent runTask _ _ w (Hreq rs1) (Hval rs1 H1)) in Hh1.
  rewrite (handler_validated Agent runTask _ _ w1 (Hreq rs2) (Hval rs2 H2)) in Hh2.
  assert (H12 : rs1 ++ rs2 <> []) by (destruct rs1; [congruence|discriminate]).
  rewrite (handler_validated Agent runTask _ _ w (Hreq (rs1 ++ rs2)) (Hval _ H12)).
  cbn [jdOf resumesOf jd resumes] in *.
  destruct (analyzeLoop_total Agent runTask (trim jobText) rs1 w) as (r1 & v1 & E1 & _).
  destruct (analyzeLoop_total Agent runTask (trim jobText) rs2 w1) as (r2 & v2 & E2 & _).
  rewrite E1 in Hh1. rewrite E2 in Hh2.
  injection Hh1 as <- <-. injection Hh2 as <- <-.
  rewrite (analyzeLoop_app Agent runTask _ _ _ _ _ _ E1), E2. reflexivity.
Qed.

End HandlerFacts.

(** ** The client *)

Module AppFacts.

Import App.

(** The slate badge is the badge of a missing score, and of nothing
    else: a score that is there is never shown as missing. *)
Theorem slate_badge_iff_no_score (score : option number) (type : BadgeType) :
  scoreBadgeClass score type = SLATE <-> score = None.
Proof.
  split; [|now intros ->].
  destruct score as [x|]; [|reflexivity]. intro H. exfalso. revert H.
  unfold scoreBadgeClass. destruct type.
  - destruct (geq x 8); [vm_compute; discriminate|].
    destruct (geq x 5); vm_compute; discriminate.
  - destruct (leq x 3); [vm_compute; discriminate|].
    destruct (leq x 6); vm_compute; discriminate.
Qed.

(** The bands are monotone, and the two kinds run in opposite
    directions: a higher fit score never gets a worse badge, a higher risk
    score never gets a better one. *)
Theorem badges_are_monotone (n m : N) :
  (n <= m)%N ->
  badgeRank (scoreBadgeClass (Some (Num n)) fit)
    <= badgeRank (scoreBadgeClass (Some (Num m)) fit)
  /\ badgeRank (scoreBadgeClass (Some (Num m)) risk)
     <= badgeRank (scoreBadgeClass (Some (Num n)) risk).
Proof.
  intro H. unfold scoreBadgeClass, geq, leq. split.
  - destruct (N.leb_spec 8 n), (N.leb_spec 8 m), (N.leb_spec 5 n), (N.leb_spec 5 m);
      try lia; vm_compute; lia.
  - destruct (N.leb_spec n 3), (N.leb_spec m 3), (N.leb_spec n 6), (N.leb_spec m 6);
      try lia; vm_compute; lia.
Qed.

Lemma badges_are_monotone_witness :
  badgeRank (scoreBadgeClass (Some (Num 4)) fit)
    <= badgeRank (scoreBadgeClass (Some (Num 9)) fit)
  /\ badgeRank (scoreBadgeClass (Some (Num 9)) risk)
     <= badgeRank (scoreBadgeClass (Some (Num 4)) risk).
Proof. apply badges_are_monotone. vm_compute. discriminate. Defined.

Lemma filterIndex_keep_all (A : Type) (keep : nat -> bool) (l : list A) i :
  (forall k, i <= k < i + List.length l -> keep k = true) ->
  filterIndex_from keep l i = l.
Proof.
  revert i; induction l as [|x l IH]; intros i H; [reflexivity|].
  cbn [filterIndex_from]. rewrite (H i) by (simpl; lia). f_equal.
  apply IH. intros k Hk. apply H. simpl. lia.
Qed.

Lemma filterIndex_drop_one (A : Type) (l : list A) i j :
  j < List.length l ->
  filterIndex_from (fun k => negb (Z.of_nat k =? Z.of_nat (i + j))%Z) l i
  = firstn j l ++ skipn (S j) l.
Proof.
  revert i j; induction l as [|x l IH]; intros i j Hj; simpl in Hj; [lia|].
  cbn [filterIndex_from]. destruct j as [|j].
  - rewrite Nat.add_0_r, Z.eqb_refl. cbn [negb firstn skipn app].
    apply filterIndex_keep_all. intros k Hk.
    apply negb_true_iff, Z.eqb_neq. lia.
  - destruct (Z.eqb_spec (Z.of_nat i) (Z.of_nat (i + S j))) as [E|_]; [lia|].
    cbn [negb firstn skipn app]. f_equal.
    replace (i + S j) with (S i + j) by lia. apply IH. lia.
Qed.

(** [removeResume] takes out the entry at a position of the list and
    nothing else; an index that is no position leaves the list as it
    is. *)
Theorem removeResume_removes_one_position (index : Z) (prev : list ResumeInput.t) :
  ((0 <= index < Z.of_nat (List.length prev))%Z ->
   removeResume index prev
   = firstn (Z.to_nat index) prev ++ skipn (S (Z.to_nat index)) prev
   /\ List.length (removeResume index prev) = List.length prev - 1)
  /\ ((index < 0 \/ Z.of_nat (List.length prev) <= index)%Z ->
      removeResume index prev = prev).
Proof.
  unfold removeResume. split.
  - intro H.
    assert (E : filterIndex_from (fun i => negb (Z.of_nat i =? index)%Z) prev 0
                = firstn (Z.to_nat index) prev ++ skipn (S (Z.to_nat index)) prev).
    { pose proof (filterIndex_drop_one _ prev 0 (Z.to_nat index) ltac:(lia)) as E.
      replace (Z.of_nat (0 + Z.to_nat index)) with index in E by lia. exact E. }
    split; [exact E|]. rewrite E, length_app, length_firstn, length_skipn. lia.
  - intro H. apply filterIndex_keep_all. intros k Hk.
    apply negb_true_iff, Z.eqb_neq. lia.
Qed.

(** [addResume] appends one blank entry labelled with the new length,
    and removing the last position undoes it. *)
Theorem addResume_then_remove_last (prev : list ResumeInput.t) :
  removeResume (Z.of_nat (List.length prev)) (addResume prev) = prev
  /\ List.length (addResume prev) = S (List.length prev)
  /\ filter nonBlank (addResume prev) = filter nonBlank prev.
Proof.
  unfold addResume. split; [|split].
  - destruct (removeResume_removes_one_position (Z.of_nat (List.length prev))
                (prev ++ [ResumeInput.mk (candidateLabel prev) []])) as [H _].
    destruct H as [H _]; [rewrite length_app; simpl; lia|].
    rewrite H, Nat2Z.id.
    rewrite firstn_app, Nat.sub_diag, firstn_all, skipn_app, skipn_all2 by lia.
    replace (S (List.length prev) - List.length prev) with 1 by lia.
    cbn. now rewrite !app_nil_r.
  - rewrite length_app. simpl. lia.
  - rewrite filter_app. cbn. now rewrite app_nil_r.
Qed.

End AppFacts.

(** ** [handleAnalyze] *)

Section HandleAnalyzeFacts.

Lemma clientFilter_nonBlank (r : ResumeInput.t) :
  (0 <? List.length (trim (ResumeInput.text r))) = nonBlank r.
Proof. unfold nonBlank. now destruct (trim (ResumeInput.text r)). Qed.

Lemma clientFilter_filter rs :
  filter (fun r => 0 <? List.length (trim (ResumeInput.text r))) rs
  = filter nonBlank rs.
Proof. apply filter_ext. intro r. apply clientFilter_nonBlank. Qed.

Lemma messageOf_nonempty err text : App.messageOf err = Some text -> text <> [].
Proof.
  destruct err as [|[[|c m]|]]; cbn; intros [= <-]; discriminate.
Qed.


Variable Net : Type.
Variable fetch : App.FetchInit -> Net -> App.FetchOutcome * Net.

(** The checks made before anything is sent: a blank job description,
    or no resume with text, sets its own message, clears the results, and
    leaves the network alone. *)
Theorem handleAnalyze_checks_before_sending (s : App.State) (n : Net) :
  (trim (App.jd s) = [] ->
   App.handleAnalyze fetch s n
   = (App.mkState (App.jd s) (App.resumes s) [] (App.loading s)
        (Some App.PASTE_JD) None, [], n))
  /\ (trim (App.jd s) <> [] -> filter nonBlank (App.resumes s) = [] ->
      App.handleAnalyze fetch s n
      = (App.mkState (App.jd s) (App.resumes s) [] (App.loading s)
           (Some App.PROVIDE_RESUME) None, [], n)).
Proof.
  unfold App.handleAnalyze. rewrite clientFilter_filter. split.
  - now intros ->.
  - intros Hjd ->. now rewrite (truthy_nonempty _ Hjd).
Qed.

Lemma catchClause_outcome (s1 : App.State) (err : App.Caught) :
  App.error s1 = None -> App.results s1 = [] ->
  let '(s2, events) := App.catchClause s1 err in
  App.jd s2 = App.jd s1 /\ App.resumes s2 = App.resumes s1
  /\ App.expandedId s2 = App.expandedId s1
  /\ App.loading s2 = false /\ App.results s2 = []
  /\ ((exists m, App.error s2 = Some m /\ m <> [] /\ events = [App.Logged err])
      \/ (err = App.Nullish /\ App.error s2 = None
          /\ events = [App.Logged App.Nullish; App.Unhandled])).
Proof.
  intros He Hr. unfold App.catchClause.
  destruct (App.messageOf err) as [text|] eqn:E; cbn.
  - repeat (split; [reflexivity || assumption|]). left. exists text.
    split; [reflexivity|]. split; [|reflexivity]. exact (messageOf_nonempty err text E).
  - repeat (split; [reflexivity || assumption|]). right.
    destruct err as [|[m|]]; try discriminate. auto.
Qed.

(** However the network answers, a run leaves the inputs as they were
    and no report expanded, and ends in one of three ways: no error, no
    spinner and nothing left outside the state; or an error message that
    is not empty (so that it is shown) and no results; or, when what was
    caught is null or undefined, no error message at all, because the
    [catch] clause itself throws: the value is logged, the spinner is
    off, and there are no results. *)
Theorem handleAnalyze_ends_with_results_or_error (s : App.State) (n : Net) :
  let '(s', logs, _) := App.handleAnalyze fetch s n in
  App.jd s' = App.jd s /\ App.resumes s' = App.resumes s
  /\ App.expandedId s' = None
  /\ ((App.error s' = None /\ App.loading s' = false /\ logs = [])
      \/ (exists m, App.error s' = Some m /\ m <> [] /\ App.results s' = [])
      \/ (App.error s' = None /\ App.loading s' = false /\ App.results s' = []
          /\ logs = [App.Logged App.Nullish; App.Unhandled])).
Proof.
  unfold App.handleAnalyze.
  destruct (negb (truthy (trim (App.jd s)))).
  { cbn. repeat split. right. left. eexists. repeat split. discriminate. }
  destruct (List.length _ =? 0).
  { cbn. repeat split. right. left. eexists. repeat split. discriminate. }
  set (s1 := App.mkState (App.jd s) (App.resumes s) [] true None None).
  cbn [App.jd App.resumes App.results App.loading App.error App.expandedId].
  fold s1.
  assert (Hcatch : forall (err : App.Caught) (n' : Net),
             let '(s', logs, _) := (App.catchClause s1 err, n') in
             App.jd s' = App.jd s /\ App.resumes s' = App.resumes s
             /\ App.expandedId s' = None
             /\ ((App.error s' = None /\ App.loading s' = false /\ logs = [])
                 \/ (exists m, App.error s' = Some m /\ m <> [] /\ App.results s' = [])
                 \/ (App.error s' = None /\ App.loading s' = false
                     /\ App.results s' = []
                     /\ logs = [App.Logged App.Nullish; App.Unhandled]))).
  { intros err n'.
    pose proof (catchClause_outcome s1 err eq_refl eq_refl) as H.
    destruct (App.catchClause s1 err) as [s2 events].
    destruct H as (Hj & Hrs & Hx & Hl & Hres & [(m & Hm & Hne & _) | (_ & Hm & Hev)]).
    - repeat (split; [assumption|]). right. left. eauto.
    - repeat (split; [assumption|]). right. right. auto. }
  destruct (fetch _ n) as [[err|st data|rs|err] n'].
  - exact (Hcatch err n').
  - exact (Hcatch (App.failure st data) n').
  - cbn. repeat split. left. repeat split.
  - exact (Hcatch err n').
Qed.

(** When the form is filled in and [fetch] rejects, what the run shows
    depends on what was thrown. For null or undefined nothing is shown:
    the [catch] clause throws while reading the message, so the error
    stays null, the value is logged, and the TypeError escapes. For any
    other value the error is its message, or the fallback text when it
    has none or an empty one, and the value is logged. Either way the
    results are empty and the spinner is off. *)
Theorem rejection_shows_message_or_nothing
    (s : App.State) (n : Net) (err : App.Caught) :
  trim (App.jd s) <> [] -> filter nonBlank (App.resumes s) <> [] ->
  (forall init, fst (fetch init n) = App.Rejected err) ->
  fst (App.handleAnalyze fetch s n)
  = match err with
    | App.Nullish =>
        (App.mkState (App.jd s) (App.resumes s) [] false None None,
         [App.Logged App.Nullish; App.Unhandled])
    | App.Value message =>
        (App.mkState (App.jd s) (App.resumes s) [] false
           (Some match message with
                 | Some (c :: m) => c :: m
                 | _ => js "Something went wrong."
                 end) None,
         [App.Logged err])
    end.
Proof.
  intros Hjd Hrs Hfetch. unfold App.handleAnalyze.
  rewrite clientFilter_filter, (truthy_nonempty _ Hjd). cbn [negb].
  destruct (filter nonBlank (App.resumes s)) as [|r rs] eqn:Ers; [contradiction|].
  cbn [List.length Nat.eqb].
  match goal with
  | |- context [fetch ?init n] =>
      specialize (Hfetch init); destruct (fetch init n) as [out n']
  end.
  cbn [fst] in Hfetch. subst out.
  destruct err as [|[[|c m]|]]; reflexivity.
Qed.

End HandleAnalyzeFacts.


(** ** The client at work on an example *)

Lemma rejection_shows_nothing_witness :
  let s := App.mkState backendJD [candidateA] [] false None None in
  fst (App.handleAnalyze (App.recording (App.Rejected App.Nullish)) s [])
  = (App.mkState backendJD [candidateA] [] false None None,
     [App.Logged App.Nullish; App.Unhandled]).
Proof.
  intro s.
  apply (rejection_shows_message_or_nothing (list App.FetchInit)
           (App.recording (App.Rejected App.Nullish)) s [] App.Nullish).
  - vm_compute. discriminate.
  - vm_compute. discriminate.
  - intro init. reflexivity.
Defined.

(** ** The handler properties at work on the examples *)

Lemma success_entry_witness :
  let b := mkBody (Some backendJD) (Some [candidateA; candidateB; candidateC]) in
  let raw := template 9 2 (js "Strong match.") (js "Alignment: ...") in
  exists w2 res1 res3 w3,
    analyzeLoop scripted (jdOf b) [candidateC] [] (logReply candidateB raw w2)
    = (Return res3, w3)
    /\ handler scripted (post b) (mkWorld [failedReply; goodReply; failedReply] [])
       = (Return (json (ResultsData (res1 ++ parsedEntry candidateB raw :: res3)) 200),
          w3).
Proof.
  intros b raw. do 2 eexists.
  eapply (success_entry_is_parsed_reply Script scripted (post b) b)
    with (before := [candidateA]).
  - repeat split.
  - split; vm_compute; discriminate.
  - reflexivity.
  - reflexivity.
  - vm_compute. reflexivity.
  - vm_compute. reflexivity.
Defined.

Lemma calls_are_sequential_witness :
  let b := mkBody (Some backendJD) (Some [candidateA; blankCandidate; candidateC]) in
  let w := mkWorld [goodReply; failedReply] [] in
  exists resp w' logs,
    handler scripted (post b) w = (Return resp, w')
    /\ List.length logs = List.length (filter nonBlank (resumesOf b))
    /\ forallb isConsole logs = true
    /\ trace w' =
       trace w
       ++ flat_map (fun re : ResumeInput.t * Effect =>
                      [ModelCall (buildPrompt (jdOf b) (ResumeInput.text (fst re)))
                         MODEL_NAME;
                       snd re])
                   (combine (filter nonBlank (resumesOf b)) logs).
Proof.
  intros b w.
  apply (calls_are_sequential_and_logged Script scripted (post b) b w).
  - repeat split.
  - split; vm_compute; discriminate.
Defined.

Lemma batch_in_sequence_witness :
  exists res1 res2 w2,
    handler scripted
      (post (mkBody (Some backendJD) (Some ([candidateA] ++ [candidateB; candidateC]))))
      (mkWorld [goodReply; failedReply; goodReply] [])
    = (Return (json (ResultsData (res1 ++ res2)) 200), w2)
    /\ List.length res1 = 1 /\ List.length res2 = 2.
Proof.
  do 3 eexists. split.
  - eapply (batch_is_processed_in_sequence Script scripted backendJD
              [candidateA] [candidateB; candidateC]).
    + vm_compute. discriminate.
    + discriminate.
    + discriminate.
    + vm_compute. reflexivity.
    + vm_compute. reflexivity.
  - split; reflexivity.
Defined.
